(** * Provider-quota table: a shallow embedding of [quota.ts]

    The development follows the extension's source: JavaScript strings are
    sequences of UTF-16 code units, JavaScript numbers are the extended
    rationals, arrays indexed in place are lists with stdpp's lookup and
    insert, exceptions are an explicit error type and the network is an
    oracle that hands each request its response. *)

From Stdlib Require Import ZArith QArith Qround Qminmax Lia Lqa String Ascii.
From Stdlib Require Import Sorted.
From Stdlib Require DecimalString.
From stdpp Require Import base list numbers.

Set Default Proof Using "Type".
Local Open Scope nat_scope.

(** ** JavaScript strings *)

(** A string is its list of UTF-16 code units; [length] is [.length]. *)
Abbreviation JsString := (list N).

Definition lit (s : string) : JsString :=
  map N_of_ascii (list_ascii_of_string s).

Definition SPACE : N := 32%N.
Definition ELLIPSIS : N := 8230%N.      (* U+2026 *)
Definition FULL_BLOCK : N := 9608%N.    (* U+2588 *)
Definition LIGHT_SHADE : N := 9617%N.   (* U+2591 *)

Definition jsEqb (a b : JsString) : bool := bool_decide (a = b).

(** [parts.join(sep)] *)
Fixpoint jsJoin (sep : JsString) (parts : list JsString) : JsString :=
  match parts with
  | [] => []
  | [p] => p
  | p :: rest => p ++ sep ++ jsJoin sep rest
  end.

(** [s.split(sep)] for a one-unit separator: never the empty list. *)
Fixpoint jsSplit (sep : N) (s : JsString) : list JsString :=
  match s with
  | [] => [[]]
  | c :: rest =>
      if (c =? sep)%N then [] :: jsSplit sep rest
      else match jsSplit sep rest with
           | [] => [[c]]
           | p :: ps => (c :: p) :: ps
           end
  end.

(** [s.replace(/c/g, d)] for single code units. *)
Definition jsReplaceAll (c d : N) (s : JsString) : JsString :=
  map (fun x => if (x =? c)%N then d else x) s.

(** [s.padEnd(n, c)] for a one-unit filler. *)
Definition jsPadEnd (s : JsString) (n : nat) (c : N) : JsString :=
  s ++ replicate (n - length s) c.

(** Decimal rendering of an integer, as a template literal prints it. *)
Definition showZ (z : Z) : JsString :=
  lit (DecimalString.NilZero.string_of_int (Z.to_int z)).

(** JavaScript truthiness of an optional string: present and not empty. *)
Definition truthy (o : option JsString) : bool :=
  match o with
  | Some (_ :: _) => true
  | _ => false
  end.

(** [a || b] on optional strings, with a string as last resort. *)
Definition orElse (a : option JsString) (b : JsString) : JsString :=
  match a with
  | Some (c :: s) => c :: s
  | _ => b
  end.

(** [a || b] where both sides may be [undefined]. *)
Definition orOpt (a b : option JsString) : option JsString :=
  if truthy a then a else b.

(** ** JavaScript numbers *)

(** Finite values are kept exact; the rounding of doubles is not modelled.
    The products the table computes are exact in doubles as well: the
    progress bar multiplies a value of [[0,1]] by its width 8. *)
Inductive JsNum : Type :=
  | JNaN
  | JInf (positive : bool)
  | JFin (q : Q).

Definition ofZ (z : Z) : JsNum := JFin (inject_Z z).
Definition ofNat (n : nat) : JsNum := ofZ (Z.of_nat n).

Definition jsLt (a b : JsNum) : bool :=
  match a, b with
  | JNaN, _ | _, JNaN => false
  | JInf pa, JInf pb => negb pa && pb
  | JInf pa, JFin _ => negb pa
  | JFin _, JInf pb => pb
  | JFin x, JFin y => negb (Qle_bool y x)
  end.

(** [Math.min] and [Math.max]: NaN is contagious. *)
Definition jsMin (a b : JsNum) : JsNum :=
  match a, b with
  | JNaN, _ | _, JNaN => JNaN
  | _, _ => if jsLt b a then b else a
  end.

Definition jsMax (a b : JsNum) : JsNum :=
  match a, b with
  | JNaN, _ | _, JNaN => JNaN
  | _, _ => if jsLt a b then b else a
  end.

Definition qIsZero (q : Q) : bool := (Qnum q =? 0)%Z.
Definition qIsNeg (q : Q) : bool := (Qnum q <? 0)%Z.

Definition jsMul (a b : JsNum) : JsNum :=
  match a, b with
  | JNaN, _ | _, JNaN => JNaN
  | JFin x, JFin y => JFin (x * y)
  | JInf p, JInf p' => JInf (eqb p p')
  | JInf p, JFin y | JFin y, JInf p =>
      if qIsZero y then JNaN else JInf (eqb p (negb (qIsNeg y)))
  end.

Definition jsSub (a b : JsNum) : JsNum :=
  match a, b with
  | JNaN, _ | _, JNaN => JNaN
  | JFin x, JFin y => JFin (x - y)
  | JInf p, JInf p' => if eqb p p' then JNaN else JInf p
  | JInf p, JFin _ => JInf p
  | JFin _, JInf p => JInf (negb p)
  end.

(** [Math.round]: the nearest integer, halves towards plus infinity. *)
Definition jsRound (a : JsNum) : JsNum :=
  match a with
  | JFin q => ofZ (Qfloor (q + (1 # 2)))
  | other => other
  end.

(** The count [String.prototype.repeat] uses: NaN counts as zero and a
    finite count is truncated.  A negative or infinite count is a
    RangeError in JavaScript; [renderProgressBar_counts] shows that the
    progress bar never asks for one. *)
Definition repeatCount (n : JsNum) : nat :=
  match n with
  | JFin q => Z.to_nat (Qfloor q)
  | _ => 0
  end.

Definition jsRepeat (c : N) (n : JsNum) : JsString :=
  replicate (repeatCount n) c.

(** JavaScript truthiness of a number: neither zero nor NaN. *)
Definition truthyNum (n : JsNum) : bool :=
  match n with
  | JNaN => false
  | JInf _ => true
  | JFin q => negb (qIsZero q)
  end.

(** ** Cell helpers *)

Definition isBreakOrTab (c : N) : bool :=
  ((c =? 13) || (c =? 10) || (c =? 9))%N.

Definition isControl (c : N) : bool :=
  ((c <=? 31) || (c =? 127))%N.

(** [value.replace(/[\r\n\t]+/g, " ")]: a whole run becomes one space. *)
Fixpoint replaceBreakRuns (inRun : bool) (s : JsString) : JsString :=
  match s with
  | [] => []
  | c :: rest =>
      if isBreakOrTab c then
        if inRun then replaceBreakRuns true rest
        else SPACE :: replaceBreakRuns true rest
      else c :: replaceBreakRuns false rest
  end.

(** [.replace(/[\u0000-\u001f\u007f]/g, " ")] *)
Definition replaceControls (s : JsString) : JsString :=
  map (fun c => if isControl c then SPACE else c) s.

Definition normalizeCell (value : JsString) : JsString :=
  replaceControls (replaceBreakRuns false value).

Definition truncateCell (value : JsString) (maxWidth : Z) : JsString :=
  let normalized := normalizeCell value in
  if (maxWidth <=? 0)%Z then []
  else if (Z.of_nat (length normalized) <=? maxWidth)%Z then normalized
  else if (maxWidth <=? 1)%Z then [ELLIPSIS]
  else take (Z.to_nat (maxWidth - 1)) normalized ++ [ELLIPSIS].

Definition renderProgressBar (fraction : JsNum) (width : nat) : JsString :=
  let clamped := jsMax (ofZ 0) (jsMin (ofZ 1) fraction) in
  let filled := jsRound (jsMul clamped (ofNat width)) in
  jsRepeat FULL_BLOCK filled ++ jsRepeat LIGHT_SHADE (jsSub (ofNat width) filled).

(** ** Quota rows *)

Record QuotaRow : Type := mkRow {
  provider : JsString;
  account : JsString;
  plan : JsString;
  metric : JsString;
  value : JsString;
  reset : JsString;
  progressRemaining : option JsNum;
}.

(** [typeof row.progressRemaining !== "number"] holds exactly when the
    field is absent: NaN and the infinities are numbers. *)
Definition barValue (row : QuotaRow) : JsString :=
  match progressRemaining row with
  | None => lit "-"
  | Some fraction => renderProgressBar fraction 8
  end.

(** ** The terminal library and the theme *)

(** [visibleWidth] and [truncateToWidth] are imported from the terminal
    library; the table only relies on their interface. *)
Class Tui : Type := {
  visibleWidth : JsString → nat;
  truncateToWidth : JsString → Z → JsString;
}.

(** The [theme] argument: styling wraps a text in escape sequences. *)
Record Theme : Type := {
  fg : JsString → JsString → JsString;
  bold : JsString → JsString;
}.

(** What the table expects of its collaborators: truncation respects a
    non-negative budget, printable ASCII is one cell per unit, and styling
    does not change the visible width. *)
Record TuiLaws (T : Tui) (theme : Theme) : Prop := {
  truncate_fits : ∀ s (w : Z), (0 ≤ w)%Z →
    (Z.of_nat (visibleWidth (truncateToWidth s w)) ≤ w)%Z;
  ascii_width : ∀ s, Forall (λ c, (32 ≤ c ≤ 126)%N) s →
    visibleWidth s = length s;
  fg_width : ∀ color s, visibleWidth (fg theme color s) = visibleWidth s;
  bold_width : ∀ s, visibleWidth (bold theme s) = visibleWidth s;
}.

(** ** Table layout *)

Definition headers : list JsString :=
  [lit "Provider"; lit "Account"; lit "Plan"; lit "Metric"; lit "Value";
   lit "Bar"; lit "Reset/Note"].

Definition maxColumnWidths : list nat := [14; 18; 12; 14; 14; 8; 14].
Definition minColumnWidths : list nat := [8; 10; 8; 8; 8; 8; 8].
Definition shrinkOrder : list nat := [1; 4; 3; 6; 0; 2].

Definition rowCells (r : QuotaRow) : list JsString :=
  [provider r; account r; plan r; metric r; value r; barValue r; reset r].

(** [widths.reduce((sum, w) => sum + w, 0) + widths.length * 3 + 1] *)
Definition totalWidth (widths : list nat) : nat :=
  sum_list widths + length widths * 3 + 1.

(** [maxWidth && ...]: an absent or zero width counts as no width. *)
Definition supplied (maxWidth : option Z) : option Z :=
  match maxWidth with
  | Some w => if (w =? 0)%Z then None else Some w
  | None => None
  end.

(** One [for (const idx of shrinkOrder)] pass, with its [break].  The
    indices of the order all lie inside the seven-element arrays. *)
Fixpoint shrinkPass (maxWidth : Z) (order : list nat) (widths : list nat)
    (reduced : bool) : list nat * bool :=
  match order with
  | [] => (widths, reduced)
  | idx :: rest =>
      if minColumnWidths !!! idx <? widths !!! idx then
        let widths' := <[idx := widths !!! idx - 1]> widths in
        if (Z.of_nat (totalWidth widths') <=? maxWidth)%Z then (widths', true)
        else shrinkPass maxWidth rest widths' true
      else shrinkPass maxWidth rest widths reduced
  end.

(** The [while (totalWidth() > maxWidth)] loop; [None] when the fuel runs
    out before the loop exits. *)
Fixpoint shrinkLoop (fuel : nat) (maxWidth : Z) (order : list nat)
    (widths : list nat) : option (list nat) :=
  if (maxWidth <? Z.of_nat (totalWidth widths))%Z then
    match fuel with
    | O => None
    | S fuel' =>
        let '(widths', reduced) := shrinkPass maxWidth order widths false in
        if reduced then shrinkLoop fuel' maxWidth order widths'
        else Some widths'
    end
  else Some widths.

Section Layout.
Context {T : Tui}.

Definition padVisible (value : JsString) (width : nat) : JsString :=
  let vis := visibleWidth value in
  value ++ replicate (width - vis) SPACE.

(** [Math.max(visibleWidth(header), ...data.map(...))], capped. *)
Definition naturalWidths (data : list (list JsString)) : list nat :=
  imap (λ index header,
          let contentWidth :=
            foldl Nat.max (visibleWidth header)
                  (map (λ row, visibleWidth (row !!! index)) data) in
          Nat.min contentWidth (maxColumnWidths !!! index))
       headers.

(** The widths after the optional shrink.  The loop gets one unit of fuel
    more than the widths sum to: a pass that reduces lowers that sum. *)
Definition columnWidths (rows : list QuotaRow) (maxWidth : option Z)
    : option (list nat) :=
  let widths := naturalWidths (map rowCells rows) in
  match supplied maxWidth with
  | Some w =>
      if (w <? Z.of_nat (totalWidth widths))%Z then
        shrinkLoop (S (sum_list widths)) w shrinkOrder widths
      else Some widths
  | None => Some widths
  end.

Definition clip (maxWidth : option Z) (s : JsString) : JsString :=
  match supplied maxWidth with
  | Some w => truncateToWidth s w
  | None => s
  end.

Definition separatorOf (widths : list nat) : JsString :=
  lit "+" ++ jsJoin (lit "+") (map (λ w, replicate (w + 2) 45%N) widths)
      ++ lit "+".

Definition renderRow (widths : list nat) (maxWidth : option Z)
    (cols : list JsString) : JsString :=
  let clamped :=
    imap (λ i c,
            let w := widths !!! i in
            padVisible (truncateToWidth (truncateCell c (Z.of_nat w))
                                        (Z.of_nat w)) w)
         cols in
  let row := lit "| " ++ jsJoin (lit " | ") clamped ++ lit " |" in
  clip maxWidth row.

(** One turn of [for (const row of rows)]: the state is the lines pushed
    so far and [lastProvider]. *)
Definition pushRow (theme : Theme) (widths : list nat) (maxWidth : option Z)
    (st : list JsString * option JsString) (row : QuotaRow)
    : list JsString * option JsString :=
  let '(lines, lastProvider) := st in
  let lines1 :=
    match lastProvider with
    | Some last =>
        if negb (jsEqb (provider row) last)
        then lines ++ [fg theme (lit "border")
                          (clip maxWidth (separatorOf widths))]
        else lines
    | None => lines
    end in
  (lines1 ++ [renderRow widths maxWidth (rowCells row)], Some (provider row)).

Definition tableHead (theme : Theme) (widths : list nat)
    (maxWidth : option Z) : list JsString :=
  let border := fg theme (lit "border") (clip maxWidth (separatorOf widths)) in
  [fg theme (lit "accent") (bold theme (lit "Provider Quotas"));
   border;
   fg theme (lit "accent") (renderRow widths maxWidth headers);
   border].

Definition renderQuotaTable (theme : Theme) (rows : list QuotaRow)
    (maxWidth : option Z) : option (list JsString) :=
  widths ← columnWidths rows maxWidth;
  let '(lines, _) :=
    foldl (pushRow theme widths maxWidth)
          (tableHead theme widths maxWidth, None) rows in
  Some (lines ++ [fg theme (lit "border")
                     (clip maxWidth (separatorOf widths))]).
End Layout.

(** ** Exceptions *)

(** A computation that returns or throws an error with a message. *)
Inductive Exn (A : Type) : Type :=
  | Ok (a : A)
  | Throw (message : JsString).
Arguments Ok {A} a.
Arguments Throw {A} message.

#[export] Instance exn_ret : MRet Exn := λ A a, Ok a.
#[export] Instance exn_bind : MBind Exn := λ A B f m,
  match m with
  | Ok a => f a
  | Throw message => Throw message
  end.

#[export] Instance exn_fmap : FMap Exn := λ A B f m,
  match m with
  | Ok a => Ok (f a)
  | Throw message => Throw message
  end.

(** [try { body } catch { handler }] *)
Definition tryCatch {A} (body : Exn A) (handler : JsString → Exn A) : Exn A :=
  match body with
  | Ok a => Ok a
  | Throw message => handler message
  end.

(** ** JSON values *)

#[warnings="-register-all"]
Inductive Json : Type :=
  | JNull
  | JBool (b : bool)
  | JNumber (n : JsNum)
  | JString (s : JsString)
  | JArray (items : list Json)
  | JObject (fields : list (JsString * Json)).

(** The own property [key] of a parsed object, whose keys are distinct. *)
Fixpoint fieldOf {A} (key : JsString) (fields : list (JsString * A)) : option A :=
  match fields with
  | [] => None
  | (k, v) :: rest => if jsEqb k key then Some v else fieldOf key rest
  end.

(** [jwt?.[key]]: only an object has such a property. *)
Definition jsonGet (v : option Json) (key : JsString) : option Json :=
  match v with
  | Some (JObject fields) => fieldOf key fields
  | _ => None
  end.

(** [v && typeof v === "object" && !Array.isArray(v) ? v : undefined] *)
Definition asRecord (v : option Json) : option (list (JsString * Json)) :=
  match v with
  | Some (JObject fields) => Some fields
  | _ => None
  end.

(** [typeof rec?.key === "string" ? rec.key : undefined] *)
Definition stringField (rec : option (list (JsString * Json))) (key : JsString)
    : option JsString :=
  match rec with
  | Some fields =>
      match fieldOf key fields with
      | Some (JString s) => Some s
      | _ => None
      end
  | None => None
  end.

(** ** The platform *)

(** Built-ins of the runtime the extension calls: number and date
    formatting, collation, base64 and JSON decoding, the host's name. *)
Class Platform : Type := {
  toFixed : JsNum → nat → JsString;
  numberToString : JsNum → JsString;
  toNumber : JsString → JsNum;
  toLowerCase : JsString → JsString;
  localeCompare : JsString → JsString → Z;
  JsDate : Type;
  dateOfString : JsString → JsDate;
  dateOfMillis : JsNum → JsDate;
  dateIsInvalid : JsDate → bool;
  toLocaleDateString : JsDate → JsString;
  toLocaleTimeString : JsDate → JsString;
  base64ToUtf8 : JsString → JsString;
  jsonParse : JsString → Exn Json;
  osPlatform : JsString;
  osRelease : JsString;
  osArch : JsString;
}.

(** ** Stored credentials *)

Module Auth.
Record AuthProviderConfig : Type := {
  access : option JsString;
  refresh : option JsString;
  projectId : option JsString;
  email : option JsString;
  accountId : option JsString;
  plan : option JsString;
  subscriptionPlan : option JsString;
  login : option JsString;
}.

Definition empty : AuthProviderConfig :=
  {| access := None; refresh := None; projectId := None; email := None;
     accountId := None; plan := None; subscriptionPlan := None;
     login := None |}.
End Auth.

(** A provider's raw entry of [auth.json]: a record or anything else. *)
Inductive RawConfig : Type :=
  | NotARecord
  | ARecord (config : Auth.AuthProviderConfig).

Definition normalizeProviderConfig (raw : RawConfig)
    : option Auth.AuthProviderConfig :=
  match raw with
  | ARecord config => Some config
  | NotARecord => None
  end.

Definition getAccountHint (provider : JsString)
    (config : Auth.AuthProviderConfig) : JsString :=
  orElse (Auth.email config)
    (orElse (Auth.login config) (orElse (Auth.accountId config) provider)).

(** ** Provider responses *)

Module Copilot.
Record QuotaSnapshot : Type := {
  entitlement : option JsNum;
  remaining : option JsNum;
  percent_remaining : option JsNum;
  unlimited : option bool;
}.

(** [quota_snapshots] is kept in [Object.entries] order. *)
Record CopilotUserResponse : Type := {
  login : option JsString;
  copilot_plan : option JsString;
  sku : option JsString;
  access_type_sku : option JsString;
  quota_reset_date_utc : option JsString;
  quota_snapshots : option (list (JsString * QuotaSnapshot));
}.
End Copilot.

Module Google.
Record QuotaInfo : Type := {
  remainingFraction : option JsNum;
  resetTime : option JsString;
  isExhausted : option bool;
}.

Record ModelInfo : Type := { quotaInfo : option QuotaInfo }.

Record ModelSortGroup : Type := { modelIds : option (list JsString) }.

Record ModelSort : Type := { groups : option (list ModelSortGroup) }.

Record FetchAvailableModelsResponse : Type := {
  models : option (list (JsString * ModelInfo));
  agentModelSorts : option (list ModelSort);
}.

Record GoogleTierInfo : Type := {
  id : option JsString;
  name : option JsString;
}.

(** [cloudaicompanionProject?: string | { id?: string }] *)
Inductive ProjectRef : Type :=
  | ProjectName (project : JsString)
  | ProjectObject (id : option JsString).

Record GoogleLoadCodeAssistResponse : Type := {
  availablePromptCredits : option JsNum;
  cloudaicompanionProject : option ProjectRef;
  plan : option JsString;
  subscriptionPlan : option JsString;
  currentTier : option GoogleTierInfo;
}.

(** What [fetchGoogleQuota] returns. *)
Record Data : Type := {
  loadData : GoogleLoadCodeAssistResponse;
  modelsData : option FetchAvailableModelsResponse;
  modelsError : option JsString;
}.

Inductive IdeType : Type := ANTIGRAVITY | IDE_UNSPECIFIED.

(** The body of the [loadCodeAssist] request. *)
Record LoadBody : Type := {
  ideType : IdeType;
  duetProject : option JsString;
}.
End Google.

Module Codex.
Record CodexRateWindow : Type := {
  usedPercent : option JsNum;
  resetAt : option JsNum;
  resetAfterSeconds : option JsNum;
  windowMinutes : option JsNum;
}.

Record CodexProbeQuota : Type := {
  planType : option JsString;
  primary : option CodexRateWindow;
  secondary : option CodexRateWindow;
  primaryOverSecondaryPercent : option JsNum;
  creditsUnlimited : option bool;
  creditsHasCredits : option bool;
  creditsBalance : option JsNum;
}.

(** What [fetchOpenAICodexQuota] returns. *)
Record Data : Type := {
  accountId : JsString;
  emailFromToken : option JsString;
  planFromToken : option JsString;
  quota : CodexProbeQuota;
}.
End Codex.

(** ** The network *)

Module Http.
(** A response: its status, its headers, and what [json()] and [text()]
    give when the body is read. *)
Record Response (A : Type) : Type := {
  status : Z;
  headers : list (JsString * JsString);
  json : Exn A;
  text : JsString;
}.
Arguments status {A} _.
Arguments headers {A} _.
Arguments json {A} _.
Arguments text {A} _.

(** [response.ok]: a status of 200 to 299. *)
Definition ok {A} (r : Response A) : bool :=
  ((200 <=? status r) && (status r <=? 299))%Z.

(** [response.headers.get(name)], [null] when the header is absent. *)
Definition get {A} (r : Response A) (name : JsString) : option JsString :=
  fieldOf name (headers r).
End Http.

(** The four endpoints, each a function from the request it is sent to
    the settled [fetch]: a response, or a rejection. *)
Record Network : Type := {
  copilotUser :
    list (JsString * JsString) → Exn (Http.Response Copilot.CopilotUserResponse);
  loadCodeAssist :
    list (JsString * JsString) → Google.LoadBody →
    Exn (Http.Response Google.GoogleLoadCodeAssistResponse);
  fetchAvailableModels :
    list (JsString * JsString) → JsString →
    Exn (Http.Response Google.FetchAvailableModelsResponse);
  codexResponses :
    list (JsString * JsString) → Exn (Http.Response unit);
}.

(** ** Provider adapters *)

Definition COPILOT_HEADERS : list (JsString * JsString) :=
  [(lit "User-Agent", lit "GitHubCopilotChat/0.35.0");
   (lit "Editor-Version", lit "vscode/1.107.0");
   (lit "Editor-Plugin-Version", lit "copilot-chat/0.35.0");
   (lit "Copilot-Integration-Id", lit "vscode-chat")].

Definition OPENAI_AUTH_CLAIM : JsString := lit "https://api.openai.com/auth".
Definition OPENAI_PROFILE_CLAIM : JsString := lit "https://api.openai.com/profile".

(** The text of an absent string inside a template literal. *)
Definition shown (o : option JsString) : JsString := default (lit "undefined") o.

Section Adapters.
Context {P : Platform}.

(** The body of the [try] up to [JSON.parse]: base64url to base64, padding
    to a multiple of four, decoding to text. *)
Definition decodeSegment (part : JsString) : JsString :=
  let base64 := jsReplaceAll 95%N 47%N (jsReplaceAll 45%N 43%N part) in
  let padded :=
    jsPadEnd base64 (length base64 + ((4 - (length base64 mod 4)) mod 4)) 61%N in
  base64ToUtf8 padded.

Definition decodeJwtPayload (token : option JsString) : Exn (option Json) :=
  if negb (truthy token) then Ok None
  else
    let parts := jsSplit 46%N (default [] token) in
    if negb (length parts =? 3) then Ok None
    else
      tryCatch
        (parsed ← jsonParse (decodeSegment (parts !!! 1));
         Ok (Some parsed))
        (λ _, Ok None).

Definition fetchCopilotQuota (net : Network) (config : Auth.AuthProviderConfig)
    : Exn Copilot.CopilotUserResponse :=
  if negb (truthy (Auth.refresh config)) then Throw (lit "missing refresh token")
  else
    response ← copilotUser net
      ((lit "Authorization", lit "Bearer " ++ shown (Auth.refresh config))
         :: COPILOT_HEADERS);
    if negb (Http.ok response)
    then Throw (lit "fetch failed (" ++ showZ (Http.status response) ++ lit ")")
    else Http.json response.

(** [config.projectId || (the project of the loadCodeAssist answer)] *)
Definition resolvedProjectId (config : Auth.AuthProviderConfig)
    (loadData : Google.GoogleLoadCodeAssistResponse) : option JsString :=
  orOpt (Auth.projectId config)
    match Google.cloudaicompanionProject loadData with
    | Some (Google.ProjectName project) => Some project
    | Some (Google.ProjectObject id) => id
    | None => None
    end.

Definition fetchGoogleQuota (net : Network) (config : Auth.AuthProviderConfig)
    (ideType : Google.IdeType) : Exn Google.Data :=
  if negb (truthy (Auth.access config)) then Throw (lit "missing access token")
  else
    let headers :=
      [(lit "Authorization", lit "Bearer " ++ shown (Auth.access config));
       (lit "Content-Type", lit "application/json");
       (lit "User-Agent",
        match ideType with
        | Google.ANTIGRAVITY => lit "antigravity"
        | Google.IDE_UNSPECIFIED => lit "google-api-nodejs-client/9.15.1"
        end)]
      ++ match ideType with
         | Google.IDE_UNSPECIFIED => [(lit "X-Goog-Api-Client", lit "gl-node/22.17.0")]
         | Google.ANTIGRAVITY => []
         end in
    let loadBody :=
      {| Google.ideType := ideType;
         Google.duetProject :=
           match ideType with
           | Google.IDE_UNSPECIFIED =>
               if truthy (Auth.projectId config) then Auth.projectId config
               else None
           | Google.ANTIGRAVITY => None
           end |} in
    loadResponse ← loadCodeAssist net headers loadBody;
    if negb (Http.ok loadResponse)
    then Throw (lit "loadCodeAssist failed ("
                  ++ showZ (Http.status loadResponse) ++ lit ")")
    else
      loadData ← Http.json loadResponse;
      let resolved := resolvedProjectId config loadData in
      if truthy resolved then
        modelsResponse ← fetchAvailableModels net headers (shown resolved);
        if Http.ok modelsResponse then
          modelsData ← Http.json modelsResponse;
          Ok {| Google.loadData := loadData;
                Google.modelsData := Some modelsData;
                Google.modelsError := None |}
        else
          Ok {| Google.loadData := loadData;
                Google.modelsData := None;
                Google.modelsError :=
                  Some (lit "fetchAvailableModels failed ("
                          ++ showZ (Http.status modelsResponse) ++ lit ")") |}
      else
        Ok {| Google.loadData := loadData;
              Google.modelsData := None;
              Google.modelsError := None |}.

Definition parseHeaderNumber (value : option JsString) : option JsNum :=
  if negb (truthy value) then None
  else match toNumber (default [] value) with
       | JFin q => Some (JFin q)
       | _ => None
       end.

Definition parseHeaderBool (value : option JsString) : option bool :=
  if negb (truthy value) then None
  else if jsEqb (toLowerCase (default [] value)) (lit "true") then Some true
  else if jsEqb (toLowerCase (default [] value)) (lit "false") then Some false
  else None.

Definition parseCodexWindow {A} (response : Http.Response A) (prefix : JsString)
    : Codex.CodexRateWindow :=
  {| Codex.usedPercent :=
       parseHeaderNumber (Http.get response (prefix ++ lit "-used-percent"));
     Codex.resetAt :=
       parseHeaderNumber (Http.get response (prefix ++ lit "-reset-at"));
     Codex.resetAfterSeconds :=
       parseHeaderNumber (Http.get response (prefix ++ lit "-reset-after-seconds"));
     Codex.windowMinutes :=
       parseHeaderNumber (Http.get response (prefix ++ lit "-window-minutes")) |}.

Definition fetchOpenAICodexQuota (net : Network)
    (config : Auth.AuthProviderConfig) : Exn Codex.Data :=
  if negb (truthy (Auth.access config)) then Throw (lit "missing access token")
  else
    jwt ← decodeJwtPayload (Auth.access config);
    let authClaim := asRecord (jsonGet jwt OPENAI_AUTH_CLAIM) in
    let profileClaim := asRecord (jsonGet jwt OPENAI_PROFILE_CLAIM) in
    let accountId :=
      orOpt (Auth.accountId config)
            (stringField authClaim (lit "chatgpt_account_id")) in
    if negb (truthy accountId) then Throw (lit "missing account id")
    else
      let headers :=
        [(lit "Authorization", lit "Bearer " ++ shown (Auth.access config));
         (lit "chatgpt-account-id", shown accountId);
         (lit "originator", lit "pi");
         (lit "OpenAI-Beta", lit "responses=experimental");
         (lit "User-Agent",
          lit "pi (" ++ osPlatform ++ lit " " ++ osRelease ++ lit "; "
            ++ osArch ++ lit ")");
         (lit "accept", lit "text/event-stream");
         (lit "content-type", lit "application/json")] in
      response ← codexResponses net headers;
      if negb (Http.ok response)
      then Throw (lit "codex probe failed (" ++ showZ (Http.status response)
                    ++ lit "): " ++ take 180 (Http.text response))
      else
        let quota :=
          {| Codex.planType :=
               orOpt (Http.get response (lit "x-codex-plan-type")) None;
             Codex.primary :=
               Some (parseCodexWindow response (lit "x-codex-primary"));
             Codex.secondary :=
               Some (parseCodexWindow response (lit "x-codex-secondary"));
             Codex.primaryOverSecondaryPercent :=
               parseHeaderNumber
                 (Http.get response
                    (lit "x-codex-primary-over-secondary-limit-percent"));
             Codex.creditsUnlimited :=
               parseHeaderBool (Http.get response (lit "x-codex-credits-unlimited"));
             Codex.creditsHasCredits :=
               parseHeaderBool (Http.get response (lit "x-codex-credits-has-credits"));
             Codex.creditsBalance :=
               parseHeaderNumber (Http.get response (lit "x-codex-credits-balance")) |} in
        Ok {| Codex.accountId := shown accountId;
              Codex.emailFromToken := stringField profileClaim (lit "email");
              Codex.planFromToken := stringField authClaim (lit "chatgpt_plan_type");
              Codex.quota := quota |}.
End Adapters.

(** ** Aggregation *)

Inductive GoogleKind : Type := Antigravity | GeminiCli.

(** The [kind] tag of a provider result, with the data it carries. *)
Inductive ResultKind : Type :=
  | KCopilot (data : Copilot.CopilotUserResponse)
  | KGoogle (kind : GoogleKind) (data : Google.Data)
  | KCodex (data : Codex.Data)
  | KError (error : JsString)
  | KUnsupported.

Module Entry.
Record ProviderResult : Type := {
  provider : JsString;
  config : Auth.AuthProviderConfig;
  kind : ResultKind;
}.
End Entry.

(** Stable insertion sort, for [Array.prototype.sort] with a comparator:
    [a] stays before [b] when the comparator is not positive. *)
Fixpoint insertBy {A} (cmp : A → A → Z) (x : A) (l : list A) : list A :=
  match l with
  | [] => [x]
  | y :: rest =>
      if (cmp x y <=? 0)%Z then x :: y :: rest else y :: insertBy cmp x rest
  end.

Definition sortBy {A} (cmp : A → A → Z) (l : list A) : list A :=
  foldr (insertBy cmp) [] l.

Section Aggregation.
Context {P : Platform}.

Definition formatDate (date : JsDate) : JsString :=
  if dateIsInvalid date then lit "unknown"
  else toLocaleDateString date ++ lit " " ++ toLocaleTimeString date.

Definition formatDateUtc (value : JsString) : JsString :=
  formatDate (dateOfString value).

Definition formatEpochUtc (seconds : option JsNum) : JsString :=
  match seconds with
  | Some s =>
      if truthyNum s then formatDate (dateOfMillis (jsMul s (ofZ 1000)))
      else lit "unknown"
  | None => lit "unknown"
  end.

Definition recommendedIds (modelsData : Google.FetchAvailableModelsResponse)
    : list JsString :=
  match Google.agentModelSorts modelsData with
  | Some (first :: _) =>
      match Google.groups first with
      | Some groups =>
          flat_map (λ g, default [] (Google.modelIds g)) groups
      | None => []
      end
  | _ => []
  end.

Definition isRelevantModel (recommended : list JsString)
    (entry : JsString * Google.ModelInfo) : bool :=
  match Google.quotaInfo entry.2 with
  | None => false
  | Some info =>
      bool_decide (entry.1 ∈ recommended)
      || match Google.remainingFraction info with
         | Some fraction => jsLt fraction (ofZ 1)
         | None => false
         end
  end.

Definition collectGoogleModelRows (provider account plan : JsString)
    (modelsData : option Google.FetchAvailableModelsResponse) : list QuotaRow :=
  match modelsData with
  | None => []
  | Some data =>
      match Google.models data with
      | None => []
      | Some models =>
          let relevantModels :=
            sortBy (λ a b, localeCompare a.1 b.1)
                   (filter (λ e, isRelevantModel (recommendedIds data) e = true)
                           models) in
          map (λ entry,
                 let info := Google.quotaInfo entry.2 in
                 let remainingFraction := info ≫= Google.remainingFraction in
                 {| provider := provider;
                    account := account;
                    plan := plan;
                    metric := entry.1;
                    value :=
                      match remainingFraction with
                      | Some fraction =>
                          toFixed (jsMul fraction (ofZ 100)) 1 ++ lit "%"
                      | None => lit "N/A"
                      end;
                    reset :=
                      let resetTime := info ≫= Google.resetTime in
                      if truthy resetTime
                      then formatDateUtc (default [] resetTime)
                      else lit "unknown";
                    progressRemaining := remainingFraction |})
              relevantModels
      end
  end.

Definition codexWindowFields (window : option Codex.CodexRateWindow)
    : JsString * JsString :=
  match window with
  | Some w =>
      match Codex.usedPercent w with
      | Some usedPercent =>
          let used := jsMax (ofZ 0) (jsMin (ofZ 100) usedPercent) in
          (toFixed (jsSub (ofZ 100) used) 1 ++ lit "% rem",
           formatEpochUtc (Codex.resetAt w))
      | None => (lit "n/a", lit "unknown")
      end
  | None => (lit "n/a", lit "unknown")
  end.

Definition plainRow (provider account plan metric value reset : JsString)
    : QuotaRow :=
  {| provider := provider; account := account; plan := plan; metric := metric;
     value := value; reset := reset; progressRemaining := None |}.

(** The rows of a Copilot result. *)
Definition copilotRows (provider : JsString) (config : Auth.AuthProviderConfig)
    (data : Copilot.CopilotUserResponse) : list QuotaRow :=
  let account := orElse (Copilot.login data) (getAccountHint provider config) in
  let plan :=
    orElse (Copilot.copilot_plan data) (orElse (Copilot.sku data) (lit "unknown")) in
  (if truthy (Copilot.access_type_sku data)
   then [plainRow provider account plan (lit "sku")
                  (default [] (Copilot.access_type_sku data)) (lit "-")]
   else [])
  ++ match Copilot.quota_snapshots data with
     | Some snapshots =>
         map (λ '(id, snapshot),
                let value :=
                  if default false (Copilot.unlimited snapshot)
                  then lit "Unlimited"
                  else
                    match Copilot.percent_remaining snapshot,
                          Copilot.remaining snapshot,
                          Copilot.entitlement snapshot with
                    | Some percentRemaining, Some remaining, Some entitlement =>
                        toFixed percentRemaining 1 ++ lit "% ("
                          ++ numberToString remaining ++ lit "/"
                          ++ numberToString entitlement ++ lit ")"
                    | _, _, _ => lit "Partial snapshot data"
                    end in
                plainRow provider account plan id value
                  (if truthy (Copilot.quota_reset_date_utc data)
                   then formatDateUtc (default [] (Copilot.quota_reset_date_utc data))
                   else lit "-"))
             snapshots
     | None =>
         [plainRow provider account plan (lit "quota")
                   (lit "No snapshot data") (lit "-")]
     end.

(** The rows of an Antigravity or Gemini CLI result. *)
Definition googleRows (provider : JsString) (config : Auth.AuthProviderConfig)
    (data : Google.Data) : list QuotaRow :=
  let loadData := Google.loadData data in
  let modelsData := Google.modelsData data in
  let modelsError := Google.modelsError data in
  let account := orElse (Auth.email config) (getAccountHint provider config) in
  let plan :=
    orElse (Google.currentTier loadData ≫= Google.name)
      (orElse (Google.currentTier loadData ≫= Google.id)
         (orElse (Google.plan loadData)
            (orElse (Google.subscriptionPlan loadData) (lit "unknown")))) in
  match Google.availablePromptCredits loadData with
  | Some credits =>
      [plainRow provider account plan (lit "prompt_credits")
                (numberToString credits) (lit "-")]
  | None => []
  end
  ++ collectGoogleModelRows provider account plan modelsData
  ++ (if truthy modelsError
      then [plainRow provider account plan (lit "model_quotas")
                     (default [] modelsError) (lit "-")]
      else [])
  ++ (if bool_decide (Google.availablePromptCredits loadData = None)
         && negb (bool_decide (is_Some (modelsData ≫= Google.models)))
         && negb (truthy modelsError)
      then [plainRow provider account plan (lit "quota")
                     (lit "No quota data") (lit "-")]
      else []).

(** The rows of a Codex result. *)
Definition codexRows (provider : JsString) (config : Auth.AuthProviderConfig)
    (data : Codex.Data) : list QuotaRow :=
  let quota := Codex.quota data in
  let account :=
    orElse (Codex.emailFromToken data)
      (orElse (Auth.email config)
         (orElse (Some (Codex.accountId data)) (getAccountHint provider config))) in
  let plan :=
    orElse (Codex.planType quota)
      (orElse (Codex.planFromToken data) (lit "unknown")) in
  let primary := codexWindowFields (Codex.primary quota) in
  let secondary := codexWindowFields (Codex.secondary quota) in
  [plainRow provider account plan (lit "codex_primary") primary.1 primary.2;
   plainRow provider account plan (lit "codex_secondary") secondary.1 secondary.2]
  ++ match Codex.primaryOverSecondaryPercent quota with
     | Some percent =>
         [plainRow provider account plan (lit "primary_over_secondary")
                   (toFixed percent 1 ++ lit "%") (lit "-")]
     | None => []
     end
  ++ (if default false (Codex.creditsUnlimited quota)
      then [plainRow provider account plan (lit "credits")
                     (lit "Unlimited") (lit "-")]
      else
        match Codex.creditsBalance quota with
        | Some balance =>
            if default false (Codex.creditsHasCredits quota)
            then [plainRow provider account plan (lit "credits")
                           (toFixed balance 2) (lit "-")]
            else []
        | None => []
        end).

(** One turn of [for (const entry of providerResults)]. *)
Definition entryRows (entry : Entry.ProviderResult) : list QuotaRow :=
  let provider := Entry.provider entry in
  let config := Entry.config entry in
  match Entry.kind entry with
  | KCopilot data => copilotRows provider config data
  | KGoogle _ data => googleRows provider config data
  | KCodex data => codexRows provider config data
  | KError error =>
      [plainRow provider (getAccountHint provider config)
                (orElse (Auth.plan config)
                   (orElse (Auth.subscriptionPlan config) (lit "unknown")))
                (lit "error") (lit "Failed to fetch quota: " ++ error) (lit "-")]
  | KUnsupported =>
      [plainRow provider (getAccountHint provider config)
                (orElse (Auth.plan config)
                   (orElse (Auth.subscriptionPlan config) (lit "unknown")))
                (lit "quota") (lit "Unavailable for this provider") (lit "-")]
  end.

(** The rows before the placeholder test. *)
Definition aggregateRows (providerResults : list Entry.ProviderResult)
    : list QuotaRow :=
  foldl (λ rows entry, rows ++ entryRows entry) [] providerResults.

Definition placeholderRow : QuotaRow :=
  plainRow (lit "-") (lit "-") (lit "-") (lit "quota") (lit "No data") (lit "-").

(** The rows the widget renders. *)
Definition widgetRows (providerResults : list Entry.ProviderResult)
    : list QuotaRow :=
  let rows := aggregateRows providerResults in
  if length rows =? 0 then rows ++ [placeholderRow] else rows.

(** The settled result of one provider, errors caught. *)
Definition fetchProvider (net : Network) (provider : JsString) (raw : RawConfig)
    : Entry.ProviderResult :=
  match normalizeProviderConfig raw with
  | None =>
      {| Entry.provider := provider; Entry.config := Auth.empty;
         Entry.kind := KError (lit "Invalid provider config in auth.json") |}
  | Some config =>
      let settled (attempt : Exn ResultKind) :=
        {| Entry.provider := provider; Entry.config := config;
           Entry.kind :=
             match attempt with
             | Ok kind => kind
             | Throw message => KError message
             end |} in
      if jsEqb provider (lit "github-copilot") then
        settled (KCopilot <$> fetchCopilotQuota net config)
      else if jsEqb provider (lit "google-antigravity") then
        settled (KGoogle Antigravity
                   <$> fetchGoogleQuota net config Google.ANTIGRAVITY)
      else if jsEqb provider (lit "google-gemini-cli") then
        settled (KGoogle GeminiCli
                   <$> fetchGoogleQuota net config Google.IDE_UNSPECIFIED)
      else if jsEqb provider (lit "openai-codex") then
        settled (KCodex <$> fetchOpenAICodexQuota net config)
      else settled (Ok KUnsupported)
  end.
End Aggregation.

(** What the [quota] command leaves behind: a notification, or the widget
    with its rows. *)
Inductive CommandOutcome : Type :=
  | Notified (message : JsString) (level : JsString)
  | Widget (rows : list QuotaRow).

Section Command.
Context {T : Tui} {P : Platform}.

(** The handler, given what [loadAuth] returned or threw. *)
Definition quotaHandler (auth : Exn (list (JsString * RawConfig)))
    (net : Network) : CommandOutcome :=
  match auth with
  | Throw message => Notified (lit "Error fetching quotas: " ++ message) (lit "error")
  | Ok providers =>
      if length providers =? 0
      then Notified (lit "No logged-in providers found") (lit "warning")
      else Widget (widgetRows (map (λ '(provider, raw), fetchProvider net provider raw)
                                   providers))
  end.

(** The widget's [render(width)]. *)
Definition renderWidget (theme : Theme) (rows : list QuotaRow) (width : Z)
    : option (list JsString) :=
  lines ← renderQuotaTable theme rows (Some width);
  Some (lines ++ [truncateToWidth (fg theme (lit "dim") (lit "(Auto-closes in 30s)"))
                                  width]).
End Command.

(** ** Reading the loops *)

(** What one turn of the inner [for] loop does to the widths. *)
Definition decCol (idx : nat) (widths : list nat) : list nat :=
  if minColumnWidths !!! idx <? widths !!! idx
  then <[idx := widths !!! idx - 1]> widths
  else widths.

(** A pass that is not cut short. *)
Definition fullPass (order : list nat) (widths : list nat) : list nat :=
  foldl (λ w idx, decCol idx w) widths order.

(** One visit of a column: one unit less, unless it is at its floor. *)
Definition decOnce (idx : nat) (x : nat) : nat :=
  if minColumnWidths !!! idx <? x then x - 1 else x.

(** The order the specification gives: Value, Reset/Note, Metric, Bar,
    Provider, Plan, and Account last. *)
Definition specShrinkOrder : list nat := [4; 6; 3; 5; 0; 2; 1].

(** The body of the table as the specification words it: every row is a
    data line, and a separator stands between two neighbours of different
    providers. *)
Inductive BodyLine : Type :=
  | GroupSeparator
  | DataLine (row : QuotaRow).

Fixpoint bodyPlan (rows : list QuotaRow) : list BodyLine :=
  match rows with
  | [] => []
  | row :: rest =>
      DataLine row ::
        match rest with
        | next :: _ =>
            if jsEqb (provider row) (provider next) then bodyPlan rest
            else GroupSeparator :: bodyPlan rest
        | [] => []
        end
  end.

Definition isSeparator (l : BodyLine) : bool :=
  match l with GroupSeparator => true | DataLine _ => false end.

Definition dataRows (plan : list BodyLine) : list QuotaRow :=
  omap (λ l, match l with DataLine row => Some row | GroupSeparator => None end) plan.

(** Neighbouring rows whose providers differ. *)
Fixpoint transitions (rows : list QuotaRow) : nat :=
  match rows with
  | row :: rest =>
      match rest with
      | next :: _ =>
          (if jsEqb (provider row) (provider next) then 0 else 1) + transitions rest
      | [] => 0
      end
  | [] => 0
  end.

(** The clamped fraction and the number of filled cells, in plain
    rational arithmetic. *)
Definition clamp01 (fraction : JsNum) : Q :=
  match fraction with
  | JFin q => Qmax 0 (Qmin 1 q)
  | JInf true => 1
  | _ => 0
  end.

Definition filledCells (fraction : JsNum) (width : nat) : nat :=
  Z.to_nat (Qfloor (clamp01 fraction * inject_Z (Z.of_nat width) + (1 # 2))).

(** A token the decoder cannot read: absent, not of three segments, or
    with a middle segment that does not decode to JSON. *)
Definition malformed {P : Platform} (token : option JsString) : Prop :=
  match token with
  | None => True
  | Some s =>
      length (jsSplit 46%N s) ≠ 3
      ∨ ∃ message, jsonParse (decodeSegment (jsSplit 46%N s !!! 1)) = Throw message
  end.

(** ** A plain terminal, for examples *)

(** One cell per code unit, truncation by cutting, no styling. *)
Definition plainTui : Tui :=
  {| visibleWidth s := length s;
     truncateToWidth s w :=
       if (Z.of_nat (length s) <=? w)%Z then s else take (Z.to_nat w) s |}.

Definition plainTheme : Theme := {| fg _ s := s; bold s := s |}.

(** A platform that prints whole numbers only and parses only the empty
    object. *)
Definition plainPlatform : Platform :=
  {| toFixed n _ :=
       match n with JFin q => showZ (Qfloor q) | _ => lit "NaN" end;
     numberToString n :=
       match n with JFin q => showZ (Qfloor q) | _ => lit "NaN" end;
     toNumber _ := JNaN;
     toLowerCase s := s;
     localeCompare _ _ := 0%Z;
     JsDate := unit;
     dateOfString _ := tt;
     dateOfMillis _ := tt;
     dateIsInvalid _ := true;
     toLocaleDateString _ := [];
     toLocaleTimeString _ := [];
     base64ToUtf8 s := s;
     jsonParse s :=
       if jsEqb s (lit "{}") then Ok (JObject []) else Throw (lit "Unexpected token");
     osPlatform := lit "linux";
     osRelease := lit "6";
     osArch := lit "x64" |}.

(** A row whose cells all reach the caps of their columns. *)
Definition wideRow : QuotaRow :=
  mkRow (lit "google-antigravity") (lit "someone@example.com")
        (lit "standard-tier") (lit "gemini-2.5-pro-preview")
        (lit "100.0% of quota") (lit "01 Jan, 00:00 UTC") (Some (JFin 1)).

(** A Copilot answer with an empty [quota_snapshots] object and no SKU. *)
Definition emptySnapshots : Copilot.CopilotUserResponse :=
  {| Copilot.login := Some (lit "octocat");
     Copilot.copilot_plan := Some (lit "individual");
     Copilot.sku := None;
     Copilot.access_type_sku := None;
     Copilot.quota_reset_date_utc := None;
     Copilot.quota_snapshots := Some [] |}.

Definition emptySnapshotsEntry : Entry.ProviderResult :=
  {| Entry.provider := lit "github-copilot";
     Entry.config := Auth.empty;
     Entry.kind := KCopilot emptySnapshots |}.

(** A Copilot answer without the [quota_snapshots] field. *)
Definition noSnapshots : Copilot.CopilotUserResponse :=
  {| Copilot.login := Some (lit "octocat");
     Copilot.copilot_plan := Some (lit "individual");
     Copilot.sku := None;
     Copilot.access_type_sku := Some (lit "free_limited_copilot");
     Copilot.quota_reset_date_utc := None;
     Copilot.quota_snapshots := None |}.

(** A Gemini CLI account, a tier answer with credits, and a network whose
    model endpoint answers 500. *)
Definition geminiConfig : Auth.AuthProviderConfig :=
  {| Auth.access := Some (lit "ya29.token");
     Auth.refresh := None;
     Auth.projectId := Some (lit "my-project");
     Auth.email := Some (lit "someone@example.com");
     Auth.accountId := None;
     Auth.plan := None;
     Auth.subscriptionPlan := None;
     Auth.login := None |}.

Definition tierAnswer : Google.GoogleLoadCodeAssistResponse :=
  {| Google.availablePromptCredits := Some (ofZ 500);
     Google.cloudaicompanionProject := None;
     Google.plan := None;
     Google.subscriptionPlan := None;
     Google.currentTier :=
       Some {| Google.id := Some (lit "standard-tier");
               Google.name := Some (lit "Standard") |} |}.

Definition respond {A} (status : Z) (body : Exn A) : Http.Response A :=
  {| Http.status := status; Http.headers := []; Http.json := body;
     Http.text := lit "" |}.

Definition failingModelsNetwork : Network :=
  {| copilotUser _ := Throw (lit "fetch failed");
     loadCodeAssist _ _ := Ok (respond 200 (Ok tierAnswer));
     fetchAvailableModels _ _ :=
       Ok (respond 500 (Throw (lit "Unexpected token")));
     codexResponses _ := Ok (respond 200 (Ok tt)) |}.

(** A Codex account whose access token has two segments only. *)
Definition codexConfig : Auth.AuthProviderConfig :=
  {| Auth.access := Some (lit "header.payload");
     Auth.refresh := None;
     Auth.projectId := None;
     Auth.email := None;
     Auth.accountId := Some (lit "acct-1");
     Auth.plan := None;
     Auth.subscriptionPlan := None;
     Auth.login := None |}.

(** ** The rest of the extension *)

(** The text [decodeSegment] hands to the base64 decoder. *)
Definition paddedSegment (part : JsString) : JsString :=
  let base64 := jsReplaceAll 95%N 47%N (jsReplaceAll 45%N 43%N part) in
  jsPadEnd base64 (length base64 + ((4 - (length base64 mod 4)) mod 4)) 61%N.

(** What a tool's [execute] returns: the text and the details, or the
    text of an error with [isError] set. *)
Inductive ToolResult (A : Type) : Type :=
  | ToolOk (text : JsString) (details : A)
  | ToolError (text : JsString).
Arguments ToolOk {A} text details.
Arguments ToolError {A} text.

(** The body shared by the two tools: [loadAuth], the provider's entry,
    the adapter, [JSON.stringify(data, null, 2)], all inside one [try]. *)
Definition runTool {A} (providerId : JsString)
    (fetchQuota : Auth.AuthProviderConfig → Exn A) (stringify : A → JsString)
    (auth : Exn (list (JsString * Auth.AuthProviderConfig))) : ToolResult A :=
  match
    (file ← auth;
     match fieldOf providerId file with
     | None => Throw (providerId ++ lit " config not found in auth.json")
     | Some config => fetchQuota config
     end)
  with
  | Ok data => ToolOk (stringify data) data
  | Throw message => ToolError (lit "Error: " ++ message)
  end.

(** The tool [get_gemini_cli_quota]. *)
Definition getGeminiCliQuota (stringify : Google.Data → JsString)
    (auth : Exn (list (JsString * Auth.AuthProviderConfig))) (net : Network)
    : ToolResult Google.Data :=
  runTool (lit "google-gemini-cli")
          (λ config, fetchGoogleQuota net config Google.IDE_UNSPECIFIED)
          stringify auth.

(** The tool [get_openai_codex_quota]. *)
Definition getOpenAICodexQuota {P : Platform} (stringify : Codex.Data → JsString)
    (auth : Exn (list (JsString * Auth.AuthProviderConfig))) (net : Network)
    : ToolResult Codex.Data :=
  runTool (lit "openai-codex") (fetchOpenAICodexQuota net) stringify auth.

(** The footer extension: [updateStatus] gives the text it hands to
    [ui.setStatus], if it sets any, from the three environment variables
    [PI_PROJECT_ROOT], [PI_HOST_HOSTNAME] and [PI_MOUNT_MODE]. *)
Definition statusText (root hostname mode : option JsString) : JsString :=
  (if truthy root then default [] root else [])
  ++ (if truthy hostname then lit " @ " ++ default [] hostname else [])
  ++ (if bool_decide (mode = Some (lit "ro")) then lit " (RO)" else []).

Definition updateStatus (theme : Theme) (root hostname mode : option JsString)
    : option JsString :=
  let status := statusText root hostname mode in
  match status with
  | [] => None
  | _ => Some (fg theme (lit "muted") (lit "[" ++ status ++ lit "]"))
  end.


(** Rows that all carry one provider, one account and one plan. *)
Definition uniformRows (p a pl : JsString) (rows : list QuotaRow) : Prop :=
  Forall (λ r, provider r = p ∧ account r = a ∧ plan r = pl) rows.

(** Closes a goal of [uniformRows] over an explicit list of rows. *)
Ltac uniform_rows :=
  repeat first
    [ apply Forall_nil
    | apply Forall_cons;
        [cbn [provider account plan plainRow]; split_and!; reflexivity|] ].

(** A model answer with two models, one of them recommended and full. *)
Definition twoModels : Google.FetchAvailableModelsResponse :=
  {| Google.models :=
       Some [(lit "gemini-pro",
              {| Google.quotaInfo :=
                   Some {| Google.remainingFraction := Some (JFin (1 # 2));
                           Google.resetTime := None;
                           Google.isExhausted := None |} |});
             (lit "gemini-flash",
              {| Google.quotaInfo :=
                   Some {| Google.remainingFraction := Some (JFin 1);
                           Google.resetTime := None;
                           Google.isExhausted := None |} |});
             (lit "gemini-nano", {| Google.quotaInfo := None |})];
     Google.agentModelSorts :=
       Some [{| Google.groups :=
                  Some [{| Google.modelIds := Some [lit "gemini-flash"] |}] |}] |}.

(** A network whose tier endpoint answers 403. *)
Definition deniedNetwork : Network :=
  {| copilotUser _ := Throw (lit "fetch failed");
     loadCodeAssist _ _ := Ok (respond 403 (Ok tierAnswer));
     fetchAvailableModels _ _ := Ok (respond 200 (Ok twoModels));
     codexResponses _ := Ok (respond 200 (Ok tt)) |}.

(** Credentials with an access token and nothing else. *)
Definition tokenOnlyConfig : Auth.AuthProviderConfig :=
  {| Auth.access := Some (lit "ya29.token"); Auth.refresh := None;
     Auth.projectId := None; Auth.email := None; Auth.accountId := None;
     Auth.plan := None; Auth.subscriptionPlan := None; Auth.login := None |}.




(** An [auth.json] with the Gemini CLI account only. *)
Definition geminiAuthFile : list (JsString * Auth.AuthProviderConfig) :=
  [(lit "google-gemini-cli", geminiConfig)].


(** The first text of a fallback chain that is present and not empty, and
    the last resort when none is: how the specification words the account
    and plan resolution orders. *)
Fixpoint firstTruthy (candidates : list (option JsString)) (fallback : JsString)
    : JsString :=
  match candidates with
  | [] => fallback
  | candidate :: rest =>
      match candidate with
      | Some (c :: s) => c :: s
      | _ => firstTruthy rest fallback
      end
  end.

(** Which models the specification calls relevant: the model carries quota
    information and either is listed in a group of the first model sort of
    the answer or has a remaining fraction, a number, below 1. *)
Definition relevantModel (data : Google.FetchAvailableModelsResponse)
    (entry : JsString * Google.ModelInfo) : Prop :=
  ∃ quota,
    Google.quotaInfo entry.2 = Some quota ∧
    ((∃ first rest groups group ids,
        Google.agentModelSorts data = Some (first :: rest) ∧
        Google.groups first = Some groups ∧
        group ∈ groups ∧
        Google.modelIds group = Some ids ∧
        entry.1 ∈ ids)
     ∨ (∃ fraction,
          Google.remainingFraction quota = Some fraction ∧
          (fraction = JInf false ∨ ∃ q, fraction = JFin q ∧ (q < 1)%Q))).

(** A collation that orders texts by their code units, a proper prefix
    before its extensions. *)
Fixpoint compareUnits (a b : JsString) : Z :=
  match a, b with
  | [], [] => 0
  | [], _ :: _ => -1
  | _ :: _, [] => 1
  | x :: a', y :: b' =>
      if (x <? y)%N then -1
      else if (y <? x)%N then 1
      else compareUnits a' b'
  end.

(** The plain platform with that collation. *)
Definition codeUnitPlatform : Platform :=
  {| toFixed := toFixed (Platform := plainPlatform);
     numberToString := numberToString (Platform := plainPlatform);
     toNumber := toNumber (Platform := plainPlatform);
     toLowerCase := toLowerCase (Platform := plainPlatform);
     localeCompare := compareUnits;
     JsDate := JsDate (Platform := plainPlatform);
     dateOfString := dateOfString (Platform := plainPlatform);
     dateOfMillis := dateOfMillis (Platform := plainPlatform);
     dateIsInvalid := dateIsInvalid (Platform := plainPlatform);
     toLocaleDateString := toLocaleDateString (Platform := plainPlatform);
     toLocaleTimeString := toLocaleTimeString (Platform := plainPlatform);
     base64ToUtf8 := base64ToUtf8 (Platform := plainPlatform);
     jsonParse := jsonParse (Platform := plainPlatform);
     osPlatform := osPlatform (Platform := plainPlatform);
     osRelease := osRelease (Platform := plainPlatform);
     osArch := osArch (Platform := plainPlatform) |}.

(** A model answer with five models: one under its full quota, one
    recommended and full, one without quota information, one full and not
    recommended, one with quota information and no fraction. *)
Definition mixedModels : Google.FetchAvailableModelsResponse :=
  {| Google.models :=
       Some [(lit "gemini-pro",
              {| Google.quotaInfo :=
                   Some {| Google.remainingFraction := Some (JFin (1 # 2));
                           Google.resetTime := None;
                           Google.isExhausted := None |} |});
             (lit "gemini-flash",
              {| Google.quotaInfo :=
                   Some {| Google.remainingFraction := Some (JFin 1);
                           Google.resetTime := None;
                           Google.isExhausted := None |} |});
             (lit "gemini-nano", {| Google.quotaInfo := None |});
             (lit "gemini-ultra",
              {| Google.quotaInfo :=
                   Some {| Google.remainingFraction := Some (JFin 1);
                           Google.resetTime := None;
                           Google.isExhausted := None |} |});
             (lit "gemini-lite",
              {| Google.quotaInfo :=
                   Some {| Google.remainingFraction := None;
                           Google.resetTime := None;
                           Google.isExhausted := None |} |})];
     Google.agentModelSorts :=
       Some [{| Google.groups :=
                  Some [{| Google.modelIds := Some [lit "gemini-flash"] |}] |};
             {| Google.groups :=
                  Some [{| Google.modelIds := Some [lit "gemini-ultra"] |}] |}] |}.

(** Credentials with a refresh token and nothing else. *)
Definition refreshOnlyConfig : Auth.AuthProviderConfig :=
  {| Auth.access := None; Auth.refresh := Some (lit "ghu_refresh");
     Auth.projectId := None; Auth.email := None; Auth.accountId := None;
     Auth.plan := None; Auth.subscriptionPlan := None; Auth.login := None |}.

(** An [auth.json] with the Codex account only. *)
Definition codexAuthFile : list (JsString * Auth.AuthProviderConfig) :=
  [(lit "openai-codex", codexConfig)].

(** * Properties *)
(** ** Facts about the shrink loop *)

Lemma lookup_total_pos_lt (w : list nat) idx :
  0 < w !!! idx → idx < length w.
Proof.
  intros H. destruct (decide (idx < length w)) as [|Hge]; [done|].
  rewrite list_lookup_total_alt, lookup_ge_None_2 in H by lia.
  simpl in H. lia.
Qed.

Lemma sum_list_insert (w : list nat) idx x :
  idx < length w →
  sum_list (<[idx := x]> w) + w !!! idx = sum_list w + x.
Proof.
  revert idx. induction w as [|a w IH]; intros [|idx] Hlt; simpl in *; try lia.
  specialize (IH idx ltac:(lia)).
  change (lookup_total (S idx) (a :: w)) with (w !!! idx). lia.
Qed.

Lemma totalWidth_dec (w : list nat) idx :
  minColumnWidths !!! idx < w !!! idx →
  S (totalWidth (<[idx := w !!! idx - 1]> w)) = totalWidth w.
Proof.
  intros H. assert (idx < length w) by (apply lookup_total_pos_lt; lia).
  unfold totalWidth. rewrite length_insert.
  pose proof (sum_list_insert w idx (w !!! idx - 1) ltac:(done)). lia.
Qed.

Lemma decCol_length idx w : length (decCol idx w) = length w.
Proof. unfold decCol. case_match; [apply length_insert | done]. Qed.

Lemma decCol_lookup idx w i :
  decCol idx w !!! i =
    if decide (i = idx ∧ minColumnWidths !!! idx < w !!! idx)
    then w !!! idx - 1 else w !!! i.
Proof.
  unfold decCol. destruct (Nat.ltb_spec (minColumnWidths !!! idx) (w !!! idx)).
  - assert (idx < length w) by (apply lookup_total_pos_lt; lia).
    case_decide as Hd.
    + destruct Hd as [-> _]. by rewrite list_lookup_total_insert_eq.
    + rewrite list_lookup_total_insert_ne; [done|]. intros ->. tauto.
  - case_decide as Hd; [lia | done].
Qed.

(** The pass, read as a prefix of the order applied column by column. *)
Lemma shrinkPass_prefix maxWidth order :
  ∀ w r w' r', shrinkPass maxWidth order w r = (w', r') →
  ∃ m, m ≤ length order ∧
       w' = fullPass (take m order) w ∧
       (m < length order → (Z.of_nat (totalWidth w') ≤ maxWidth)%Z).
Proof.
  induction order as [|idx rest IH]; intros w r w' r' Hp; simpl in Hp.
  - inversion Hp; subst. exists 0. simpl. split_and!; [lia | done | lia].
  - destruct (Nat.ltb_spec (minColumnWidths !!! idx) (w !!! idx)) as [Hlt|Hge].
    + destruct (Z.leb_spec (Z.of_nat (totalWidth (<[idx := w !!! idx - 1]> w)))
                  maxWidth) as [Hfit|Hover].
      * inversion Hp; subst. exists 1. simpl. unfold fullPass; simpl.
        unfold decCol. rewrite (proj2 (Nat.ltb_lt _ _) Hlt).
        split_and!; [lia | done | done].
      * apply IH in Hp as (m & Hm & -> & Hfit). exists (S m). simpl.
        unfold fullPass at 2; simpl. unfold decCol at 2.
        rewrite (proj2 (Nat.ltb_lt _ _) Hlt).
        split_and!; [lia | done | intros; apply Hfit; lia].
    + apply IH in Hp as (m & Hm & -> & Hfit). exists (S m). simpl.
      unfold fullPass at 2; simpl. unfold decCol at 2.
      rewrite (proj2 (Nat.ltb_ge _ _) Hge).
      split_and!; [lia | done | intros; apply Hfit; lia].
Qed.

(** Progress of a pass: the flag is raised exactly when a column shrank,
    and then the widths sum to strictly less. *)
Lemma shrinkPass_progress maxWidth order :
  ∀ w r w' r', shrinkPass maxWidth order w r = (w', r') →
  length w' = length w ∧
  (r = true → r' = true) ∧
  (r' = false → w' = w ∧ ∀ idx, idx ∈ order → w !!! idx ≤ minColumnWidths !!! idx) ∧
  (if r then sum_list w' ≤ sum_list w
   else if r' then sum_list w' < sum_list w else sum_list w' = sum_list w) ∧
  ((maxWidth < Z.of_nat (totalWidth w))%Z → (maxWidth ≤ Z.of_nat (totalWidth w'))%Z).
Proof.
  induction order as [|idx rest IH]; intros w r w' r' Hp; simpl in Hp.
  - inversion Hp; subst. split_and!; try done.
    + intros _. split; [done|]. intros idx Hin. by apply elem_of_nil in Hin.
    + by destruct r'.
    + lia.
  - destruct (Nat.ltb_spec (minColumnWidths !!! idx) (w !!! idx)) as [Hlt|Hge].
    + pose proof (totalWidth_dec w idx Hlt) as Htot.
      assert (Hsum : S (sum_list (<[idx := w !!! idx - 1]> w)) = sum_list w).
      { unfold totalWidth in Htot. rewrite length_insert in Htot. lia. }
      destruct (Z.leb_spec (Z.of_nat (totalWidth (<[idx := w !!! idx - 1]> w)))
                  maxWidth) as [Hfit|Hover].
      * inversion Hp; subst. rewrite length_insert.
        split_and!; try done; [destruct r; lia | lia].
      * apply IH in Hp as (Hlen & Hr & Hstop & Hs & Hno).
        rewrite length_insert in Hlen. specialize (Hr eq_refl). subst r'.
        split_and!; try done; [destruct r; lia | intros; apply Hno; lia].
    + apply IH in Hp as (Hlen & Hr & Hstop & Hs & Hno).
      split_and!; try done.
      intros Hf. destruct (Hstop Hf) as [-> Hall]. split; [done|].
      intros i Hin. apply elem_of_cons in Hin as [->|Hin]; [done | by apply Hall].
Qed.

Lemma fullPass_length order w : length (fullPass order w) = length w.
Proof.
  revert w. induction order as [|idx rest IH]; intros w; [done|].
  unfold fullPass in *. simpl. by rewrite IH, decCol_length.
Qed.

Lemma fullPass_snoc order idx w :
  fullPass (order ++ [idx]) w = decCol idx (fullPass order w).
Proof. unfold fullPass. by rewrite foldl_app. Qed.

(** No column falls below its floor, and none grows. *)
Lemma fullPass_bounds order w i :
  Nat.min (w !!! i) (minColumnWidths !!! i) ≤ fullPass order w !!! i ≤ w !!! i.
Proof.
  revert w. induction order as [|idx rest IH]; intros w; [simpl; lia|].
  unfold fullPass in *. simpl. specialize (IH (decCol idx w)).
  rewrite decCol_lookup in IH. case_decide as Hd; [|done].
  destruct Hd as [-> Hd]. lia.
Qed.

Lemma fullPass_untouched order w i :
  i ∉ order → fullPass order w !!! i = w !!! i.
Proof.
  revert w. induction order as [|idx rest IH]; intros w Hni; [done|].
  apply not_elem_of_cons in Hni as [Hne Hni].
  unfold fullPass in *. simpl. rewrite IH by done.
  rewrite decCol_lookup. case_decide as Hd; [tauto | done].
Qed.

Lemma rounds_length order k w :
  length (Nat.iter k (fullPass order) w) = length w.
Proof. induction k as [|k IH]; simpl; [done|]. by rewrite fullPass_length. Qed.

Lemma rounds_bounds order k w i :
  Nat.min (w !!! i) (minColumnWidths !!! i)
    ≤ Nat.iter k (fullPass order) w !!! i ≤ w !!! i.
Proof.
  induction k as [|k IH]; simpl; [lia|].
  pose proof (fullPass_bounds order (Nat.iter k (fullPass order) w) i). lia.
Qed.

Lemma rounds_untouched order k w i :
  i ∉ order → Nat.iter k (fullPass order) w !!! i = w !!! i.
Proof.
  intros Hni. induction k as [|k IH]; simpl; [done|].
  by rewrite fullPass_untouched.
Qed.

(** Enough fuel: every reducing pass lowers the sum of the widths. *)
Lemma shrinkLoop_total fuel maxWidth order :
  ∀ w, sum_list w < fuel → is_Some (shrinkLoop fuel maxWidth order w).
Proof.
  induction fuel as [|fuel IH]; intros w Hf; [lia|].
  simpl. case_match; [|by eexists].
  destruct (shrinkPass maxWidth order w false) as [w1 r1] eqn:Hp.
  apply shrinkPass_progress in Hp as (_ & _ & _ & Hs & _).
  destruct r1; [|by eexists]. apply IH. lia.
Qed.

(** More fuel does not change the result. *)
Lemma shrinkLoop_fuel_mono fuel fuel' maxWidth order :
  ∀ w w', fuel ≤ fuel' →
    shrinkLoop fuel maxWidth order w = Some w' →
    shrinkLoop fuel' maxWidth order w = Some w'.
Proof.
  revert fuel'. induction fuel as [|fuel IH]; intros fuel' w w' Hle Hl.
  - simpl in Hl. destruct fuel'; simpl; case_match; done.
  - destruct fuel' as [|fuel']; [lia|]. simpl in *. case_match; [|done].
    destruct (shrinkPass maxWidth order w false) as [w1 r1].
    destruct r1; [|done]. apply IH; [lia | done].
Qed.

(** The loop is a number of whole passes followed by a prefix of one more,
    it stops on the budget or on the floors, and it never overshoots. *)
Lemma shrinkLoop_rounds fuel maxWidth order :
  ∀ w w', shrinkLoop fuel maxWidth order w = Some w' →
  (∃ k m, m ≤ length order ∧
          w' = fullPass (take m order) (Nat.iter k (fullPass order) w)) ∧
  ((Z.of_nat (totalWidth w') ≤ maxWidth)%Z ∨
   ∀ idx, idx ∈ order → w' !!! idx ≤ minColumnWidths !!! idx) ∧
  ((maxWidth < Z.of_nat (totalWidth w))%Z →
   (maxWidth ≤ Z.of_nat (totalWidth w'))%Z).
Proof.
  induction fuel as [|fuel IH]; intros w w' Hl; simpl in Hl.
  - destruct (Z.ltb_spec maxWidth (Z.of_nat (totalWidth w))); [done|].
    inversion Hl; subst. split_and!; [|left; lia|lia].
    exists 0, 0. split; [lia|]. by rewrite take_0.
  - destruct (Z.ltb_spec maxWidth (Z.of_nat (totalWidth w))) as [Hover|Hfit].
    2:{ inversion Hl; subst. split_and!; [|left; lia|lia].
        exists 0, 0. split; [lia|]. by rewrite take_0. }
    destruct (shrinkPass maxWidth order w false) as [w1 r1] eqn:Hp.
    pose proof (shrinkPass_prefix _ _ _ _ _ _ Hp) as (m1 & Hm1 & Hw1 & Hbrk).
    apply shrinkPass_progress in Hp as (_ & _ & Hstop & _ & Hno).
    specialize (Hno Hover).
    destruct r1.
    + destruct (Z.ltb_spec maxWidth (Z.of_nat (totalWidth w1))) as [Hover1|Hfit1].
      * (* the pass ran to its end; the loop goes on *)
        assert (m1 = length order) as -> by lia.
        rewrite firstn_all in Hw1.
        apply IH in Hl as ((k & m & Hm & ->) & Hend & Hno').
        split_and!; [|done|intros _; by apply Hno'].
        exists (S k), m. split; [done|].
        by rewrite Nat.iter_succ_r, <- Hw1.
      * (* the budget is met: the next test of the loop exits *)
        assert (w' = w1) as ->.
        { destruct fuel; simpl in Hl;
            destruct (Z.ltb_spec maxWidth (Z.of_nat (totalWidth w1)));
            try lia; congruence. }
        split_and!; [|left; lia|done].
        exists 0, m1. by split.
    + inversion Hl; subst w'. destruct (Hstop eq_refl) as [-> Hall].
      split_and!; [|by right|lia].
      exists 0, 0. split; [lia|]. by rewrite take_0.
Qed.

Lemma decCol_lookup_eq idx w : decCol idx w !!! idx = decOnce idx (w !!! idx).
Proof.
  rewrite decCol_lookup. unfold decOnce.
  destruct (Nat.ltb_spec (minColumnWidths !!! idx) (w !!! idx));
    case_decide; try done; try lia; tauto.
Qed.

Lemma decCol_lookup_ne idx w i : i ≠ idx → decCol idx w !!! i = w !!! i.
Proof. intros Hne. rewrite decCol_lookup. case_decide; [tauto | done]. Qed.

Lemma fullPass_visited order w i :
  NoDup order → i ∈ order → fullPass order w !!! i = decOnce i (w !!! i).
Proof.
  revert w. induction order as [|idx rest IH]; intros w Hnd Hin.
  - by apply elem_of_nil in Hin.
  - apply list.NoDup_cons in Hnd as [Hni Hnd].
    change (fullPass (idx :: rest) w) with (fullPass rest (decCol idx w)).
    apply elem_of_cons in Hin as [->|Hin].
    + by rewrite fullPass_untouched, decCol_lookup_eq.
    + rewrite IH, decCol_lookup_ne; [done| |done|done].
      intros ->. contradiction.
Qed.

Lemma rounds_lookup order k w i :
  NoDup order → i ∈ order →
  Nat.iter k (fullPass order) w !!! i =
    w !!! i - Nat.min k (w !!! i - minColumnWidths !!! i).
Proof.
  intros Hnd Hin. induction k as [|k IH]; [simpl; lia|].
  rewrite Nat.iter_succ, fullPass_visited, IH by done. unfold decOnce.
  case_match eqn:Hc; [apply Nat.ltb_lt in Hc | apply Nat.ltb_ge in Hc]; lia.
Qed.

(** The closed form of [k] whole passes and [m] columns of the next: the
    column at position [p] of the order has lost [k] units, one more when
    [p < m], and stopped at its floor. *)
Lemma rounds_closed_form order k m w p i :
  NoDup order → order !! p = Some i →
  fullPass (take m order) (Nat.iter k (fullPass order) w) !!! i =
    w !!! i - Nat.min (if decide (p < m) then S k else k)
                      (w !!! i - minColumnWidths !!! i).
Proof.
  intros Hnd Hp.
  assert (Hin : i ∈ order) by (apply list_elem_of_lookup; eauto).
  case_decide as Hpm.
  - rewrite fullPass_visited, rounds_lookup; [|done|done| |].
    + unfold decOnce.
      case_match eqn:Hc; [apply Nat.ltb_lt in Hc | apply Nat.ltb_ge in Hc]; lia.
    + eapply sublist_NoDup, sublist_take; done.
    + apply elem_of_take. eauto.
  - rewrite fullPass_untouched, rounds_lookup; [done|done|done|].
    intros (j & Hj & Hlt)%elem_of_take.
    rewrite (NoDup_lookup _ _ _ _ Hnd Hp Hj) in Hpm. lia.
Qed.

(** ** The widths the table is drawn with *)

Lemma shrinkLoop_length fuel maxWidth order w w' :
  shrinkLoop fuel maxWidth order w = Some w' → length w' = length w.
Proof.
  intros ((k & m & _ & ->) & _)%shrinkLoop_rounds.
  by rewrite fullPass_length, rounds_length.
Qed.

Lemma shrinkLoop_bounds fuel maxWidth order w w' i :
  shrinkLoop fuel maxWidth order w = Some w' →
  Nat.min (w !!! i) (minColumnWidths !!! i) ≤ w' !!! i ≤ w !!! i.
Proof.
  intros ((k & m & _ & ->) & _)%shrinkLoop_rounds.
  pose proof (rounds_bounds order k w i).
  pose proof (fullPass_bounds (take m order) (Nat.iter k (fullPass order) w) i).
  lia.
Qed.

Section LayoutFacts.
Context {T : Tui}.

Lemma naturalWidths_length data : length (naturalWidths data) = 7.
Proof. done. Qed.

Lemma naturalWidths_cap data i :
  naturalWidths data !!! i ≤ maxColumnWidths !!! i.
Proof.
  unfold naturalWidths, headers. cbn [imap].
  do 7 (destruct i as [|i]; [cbn; lia|]). cbn. lia.
Qed.

(** The layout always has its seven widths, none above its cap. *)
Lemma columnWidths_defined rows maxWidth :
  ∃ widths, columnWidths rows maxWidth = Some widths ∧
            length widths = 7 ∧
            ∀ i, widths !!! i ≤ maxColumnWidths !!! i.
Proof.
  unfold columnWidths. set (w0 := naturalWidths (map rowCells rows)).
  assert (Hbase : length w0 = 7 ∧ ∀ i, w0 !!! i ≤ maxColumnWidths !!! i).
  { split; [done | intros; apply naturalWidths_cap]. }
  destruct (supplied maxWidth) as [w|]; [|by exists w0].
  case_match; [|by exists w0].
  destruct (shrinkLoop_total (S (sum_list w0)) w shrinkOrder w0) as [w' Hw'];
    [lia|].
  exists w'. split; [done|]. split.
  - rewrite (shrinkLoop_length _ _ _ _ _ Hw'). apply Hbase.
  - intros i. pose proof (shrinkLoop_bounds _ _ _ _ _ i Hw').
    pose proof (proj2 Hbase i). lia.
Qed.

(** With a width supplied, the loop ends on the budget or on the floors. *)
Lemma columnWidths_stop rows maxWidth w widths :
  supplied maxWidth = Some w →
  columnWidths rows maxWidth = Some widths →
  (Z.of_nat (totalWidth widths) ≤ w)%Z ∨
  ∀ idx, idx ∈ shrinkOrder → widths !!! idx ≤ minColumnWidths !!! idx.
Proof.
  unfold columnWidths. intros ->.
  destruct (Z.ltb_spec w (Z.of_nat (totalWidth (naturalWidths (map rowCells rows)))));
    intros Hw.
  - by apply shrinkLoop_rounds in Hw as (_ & Hstop & _).
  - inversion Hw; subst. left. lia.
Qed.
End LayoutFacts.

(** Seven columns at their floors, the Bar column at its cap: 58 cells and
    22 of borders and padding. *)
Lemma floors_fit (widths : list nat) :
  length widths = 7 →
  (∀ idx, idx ∈ shrinkOrder → widths !!! idx ≤ minColumnWidths !!! idx) →
  widths !!! 5 ≤ 8 →
  totalWidth widths ≤ 80.
Proof.
  intros Hlen Hfloor Hbar.
  do 7 (destruct widths as [|? widths]; [done|]).
  destruct widths; [|done].
  pose proof (Hfloor 0 ltac:(unfold shrinkOrder; repeat constructor)).
  pose proof (Hfloor 1 ltac:(unfold shrinkOrder; repeat constructor)).
  pose proof (Hfloor 2 ltac:(unfold shrinkOrder; repeat constructor)).
  pose proof (Hfloor 3 ltac:(unfold shrinkOrder; repeat constructor)).
  pose proof (Hfloor 4 ltac:(unfold shrinkOrder; repeat constructor)).
  pose proof (Hfloor 6 ltac:(unfold shrinkOrder; repeat constructor)).
  cbn in *. lia.
Qed.

(** ** The shrink loop: termination and order *)

(** C10. The column-shrink loop terminates for every row set and every
    target width.  An outer iteration either strictly lowers the sum of the
    widths, no column going under its floor, or reports no progress and
    leaves the widths as they are; the loop goes round again only after
    progress and exits otherwise.  So the loop returns with the fuel the
    layout gives it (and with any more), and the layout is total. *)
Theorem shrink_loop_terminates {T : Tui} (theme : Theme) (rows : list QuotaRow)
    (maxWidth : option Z) (w : Z) (widths : list nat) :
  (∃ widths' reduced,
     shrinkPass w shrinkOrder widths false = (widths', reduced) ∧
     ((reduced = true ∧ sum_list widths' < sum_list widths)
      ∨ (reduced = false ∧ widths' = widths)) ∧
     (∀ i, Nat.min (widths !!! i) (minColumnWidths !!! i) ≤ widths' !!! i) ∧
     ∀ fuel,
       shrinkLoop (S fuel) w shrinkOrder widths
       = if (w <? Z.of_nat (totalWidth widths))%Z
         then if reduced then shrinkLoop fuel w shrinkOrder widths'
              else Some widths'
         else Some widths) ∧
  (∀ extra, is_Some (shrinkLoop (S (sum_list widths) + extra) w shrinkOrder widths)) ∧
  is_Some (columnWidths rows maxWidth) ∧
  is_Some (renderQuotaTable theme rows maxWidth).
Proof.
  split_and!.
  - destruct (shrinkPass w shrinkOrder widths false) as [w1 r1] eqn:Hp.
    exists w1, r1. split; [done|].
    pose proof (shrinkPass_prefix _ _ _ _ _ _ Hp) as (m & _ & Hw1 & _).
    pose proof (shrinkPass_progress _ _ _ _ _ _ Hp) as (_ & _ & Hstop & Hsum & _).
    split_and!.
    + destruct r1; [left; by split | right; split; [done | by apply Hstop]].
    + intros i. subst w1. apply fullPass_bounds.
    + intros fuel. cbn [shrinkLoop]. by rewrite Hp.
  - intros extra. apply shrinkLoop_total. lia.
  - destruct (columnWidths_defined rows maxWidth) as (ws & -> & _). by eexists.
  - unfold renderQuotaTable.
    destruct (columnWidths_defined rows maxWidth) as (ws & -> & _). simpl.
    destruct (foldl _ _ rows). by eexists.
Qed.

(** C1, as the code has it.  When a width is supplied and the natural
    widths need more, the loop shrinks the columns in the fixed order
    Account, Value, Metric, Reset/Note, Provider, Plan; the Bar column is
    never shrunk.  The result is [k] whole passes over that order followed
    by the first [m] columns of one more pass, each visit taking one unit
    from a column above its floor and skipping a column at its floor: the
    column at position [p] has lost [k] units, one more when [p < m], or
    stopped at its floor.  No column ends under its floor unless it began
    there, and the loop stops exactly on the budget, or above it with every
    column of the order at its floor. *)
Theorem shrink_priority_order {T : Tui} (rows : list QuotaRow)
    (maxWidth : option Z) (w : Z) :
  supplied maxWidth = Some w →
  (w < Z.of_nat (totalWidth (naturalWidths (map rowCells rows))))%Z →
  ((λ idx, headers !!! idx) <$> shrinkOrder
     = [lit "Account"; lit "Value"; lit "Metric"; lit "Reset/Note";
        lit "Provider"; lit "Plan"]) ∧
  ∃ widths k m,
    columnWidths rows maxWidth = Some widths ∧
    m ≤ length shrinkOrder ∧
    widths = fullPass (take m shrinkOrder)
               (Nat.iter k (fullPass shrinkOrder)
                  (naturalWidths (map rowCells rows))) ∧
    (∀ p idx, shrinkOrder !! p = Some idx →
       widths !!! idx =
         naturalWidths (map rowCells rows) !!! idx
         - Nat.min (if decide (p < m) then S k else k)
                   (naturalWidths (map rowCells rows) !!! idx
                    - minColumnWidths !!! idx)) ∧
    widths !!! 5 = naturalWidths (map rowCells rows) !!! 5 ∧
    (∀ i, Nat.min (naturalWidths (map rowCells rows) !!! i)
                  (minColumnWidths !!! i) ≤ widths !!! i
          ≤ naturalWidths (map rowCells rows) !!! i) ∧
    (Z.of_nat (totalWidth widths) = w
     ∨ ((w < Z.of_nat (totalWidth widths))%Z
        ∧ ∀ idx, idx ∈ shrinkOrder → widths !!! idx ≤ minColumnWidths !!! idx)).
Proof.
  intros Hsup Hover. split; [done|].
  set (w0 := naturalWidths (map rowCells rows)) in *.
  destruct (columnWidths_defined rows maxWidth) as (widths & Hcw & _).
  pose proof Hcw as Hloop. unfold columnWidths in Hloop.
  rewrite Hsup in Hloop. fold w0 in Hloop.
  rewrite (proj2 (Z.ltb_lt _ _) Hover) in Hloop.
  pose proof (shrinkLoop_rounds _ _ _ _ _ Hloop)
    as ((k & m & Hm & Hform) & Hstop & Hno).
  specialize (Hno Hover).
  assert (Hnd : NoDup shrinkOrder) by (by apply (bool_decide_unpack _)).
  assert (Hbar : 5 ∉ shrinkOrder) by (by apply (bool_decide_unpack _)).
  exists widths, k, m. split_and!; try done.
  - intros p idx Hp. rewrite Hform. by apply rounds_closed_form.
  - rewrite Hform, fullPass_untouched, rounds_untouched; [done|done|].
    intros Hin%elem_of_take. destruct Hin as (j & Hj & _).
    by apply list_elem_of_lookup_2 in Hj.
  - intros i. by apply (shrinkLoop_bounds _ _ _ _ _ i) in Hloop.
  - destruct Hstop as [Hfit|Hfloor]; [left; lia|].
    destruct (decide (Z.of_nat (totalWidth widths) = w)); [by left|].
    right. split; [lia | done].
Qed.

Lemma shrink_priority_order_witness :
  supplied (Some 100%Z) = Some 100%Z ∧
  (100 < Z.of_nat (totalWidth (naturalWidths (T := plainTui)
                                 (map rowCells [wideRow]))))%Z ∧
  ∃ widths, columnWidths (T := plainTui) [wideRow] (Some 100%Z) = Some widths ∧
            totalWidth widths = 100.
Proof.
  assert (H1 : supplied (Some 100%Z) = Some 100%Z) by reflexivity.
  assert (H2 : (100 < Z.of_nat (totalWidth (naturalWidths (T := plainTui)
                                 (map rowCells [wideRow]))))%Z)
    by (vm_compute; reflexivity).
  split; [exact H1|]. split; [exact H2|].
  destruct (shrink_priority_order (T := plainTui) [wideRow] (Some 100%Z) 100 H1 H2)
    as (_ & widths & k & m & Hcw & _ & _ & _ & _ & _ & Hstop).
  exists widths. split; [exact Hcw|].
  destruct Hstop as [Heq|[Hlt Hfloor]]; [lia|].
  exfalso. vm_compute in Hcw. inversion Hcw; subst. vm_compute in Hlt.
  discriminate.
Defined.

(** C1 as stated fails: with every column at its cap and one unit to
    save, the code takes the unit from Account and leaves Value alone; the
    order of the claim would take it from Value and leave Account alone. *)
Lemma shrink_order_starts_with_account :
  naturalWidths (T := plainTui) (map rowCells [wideRow])
    = [14; 18; 12; 14; 14; 8; 14] ∧
  columnWidths (T := plainTui) [wideRow] (Some 115%Z)
    = Some [14; 17; 12; 14; 14; 8; 14] ∧
  shrinkLoop 95 115 specShrinkOrder [14; 18; 12; 14; 14; 8; 14]
    = Some [14; 18; 12; 14; 13; 8; 14].
Proof. by vm_compute. Qed.

(** ** The lines of the table *)

Lemma jsEqb_sym (a b : JsString) : jsEqb a b = jsEqb b a.
Proof. unfold jsEqb. apply bool_decide_ext. split; congruence. Qed.

Section TableFacts.
Context {T : Tui}.

(** The loop over the rows pushes the plan that follows the first row. *)
Lemma pushRow_plan (theme : Theme) (widths : list nat) (maxWidth : option Z)
    (rest : list QuotaRow) :
  ∀ (row : QuotaRow) (lines : list JsString),
    (foldl (pushRow theme widths maxWidth) (lines, Some (provider row)) rest).1
    = lines ++ map (λ l, match l with
                         | GroupSeparator =>
                             fg theme (lit "border")
                                (clip maxWidth (separatorOf widths))
                         | DataLine r => renderRow widths maxWidth (rowCells r)
                         end)
                   (tail (bodyPlan (row :: rest))).
Proof.
  induction rest as [|next rest IH]; intros row lines.
  - simpl. by rewrite app_nil_r.
  - cbn [foldl pushRow]. rewrite IH. cbn [bodyPlan tail].
    rewrite (jsEqb_sym (provider next) (provider row)).
    destruct (jsEqb (provider row) (provider next)); cbn [negb map];
      destruct rest; cbn [map tail]; by rewrite <- ?app_assoc.
Qed.

Lemma bodyPlan_rows (rows : list QuotaRow) : dataRows (bodyPlan rows) = rows.
Proof.
  induction rows as [|row rest IH]; [done|].
  cbn [bodyPlan]. unfold dataRows in *.
  destruct rest as [|next rest]; [done|].
  destruct (jsEqb (provider row) (provider next));
    cbn -[bodyPlan]; by rewrite IH.
Qed.

Lemma bodyPlan_separators (rows : list QuotaRow) :
  length (filter (λ l, isSeparator l = true) (bodyPlan rows)) = transitions rows.
Proof.
  induction rows as [|row rest IH]; [done|].
  cbn [bodyPlan transitions]. rewrite filter_cons_False by (cbn; congruence).
  destruct rest as [|next rest]; [done|].
  destruct (jsEqb (provider row) (provider next)); [done|].
  rewrite filter_cons_True by done. cbn [length]. by rewrite IH.
Qed.

Lemma bodyPlan_length (rows : list QuotaRow) :
  length (bodyPlan rows) = length rows + transitions rows.
Proof.
  induction rows as [|row rest IH]; [done|].
  cbn [bodyPlan transitions length].
  destruct rest as [|next rest]; [done|].
  destruct (jsEqb (provider row) (provider next));
    cbn [length]; rewrite IH; cbn [length]; lia.
Qed.

(** The whole table: its head, the plan of its body, the closing border. *)
Lemma renderQuotaTable_plan (theme : Theme) (rows : list QuotaRow)
    (maxWidth : option Z) (widths : list nat) :
  columnWidths rows maxWidth = Some widths →
  renderQuotaTable theme rows maxWidth
  = Some (tableHead theme widths maxWidth
          ++ map (λ l, match l with
                       | GroupSeparator =>
                           fg theme (lit "border")
                              (clip maxWidth (separatorOf widths))
                       | DataLine r => renderRow widths maxWidth (rowCells r)
                       end)
                 (bodyPlan rows)
          ++ [fg theme (lit "border") (clip maxWidth (separatorOf widths))]).
Proof.
  intros Hcw. unfold renderQuotaTable. rewrite Hcw. cbn [mbind option_bind].
  destruct rows as [|row rest]; [done|].
  cbn [foldl]. unfold pushRow at 2.
  pose proof (pushRow_plan theme widths maxWidth rest row
    (tableHead theme widths maxWidth ++ [renderRow widths maxWidth (rowCells row)]))
    as Hplan.
  destruct (foldl _ _ rest) as [lines last]. cbn [fst] in Hplan. subst lines.
  by f_equal.
Qed.
End TableFacts.

(** C5. For every row set the table holds exactly one data line per quota
    row, in order, and exactly one provider-group separator between two
    consecutive rows whose providers differ: the lines are the four lines
    of the head, the painted plan of the body and the closing border; the
    data lines of the plan are the rows, and its separators are as many as
    the provider changes between neighbours. *)
Theorem table_lines_per_row {T : Tui} (theme : Theme) (rows : list QuotaRow)
    (maxWidth : option Z) :
  ∃ widths,
    columnWidths rows maxWidth = Some widths ∧
    renderQuotaTable theme rows maxWidth
    = Some (tableHead theme widths maxWidth
            ++ map (λ l, match l with
                         | GroupSeparator =>
                             fg theme (lit "border")
                                (clip maxWidth (separatorOf widths))
                         | DataLine r => renderRow widths maxWidth (rowCells r)
                         end)
                   (bodyPlan rows)
            ++ [fg theme (lit "border") (clip maxWidth (separatorOf widths))]) ∧
    dataRows (bodyPlan rows) = rows ∧
    length (filter (λ l, isSeparator l = true) (bodyPlan rows)) = transitions rows ∧
    length (bodyPlan rows) = length rows + transitions rows.
Proof.
  destruct (columnWidths_defined rows maxWidth) as (widths & Hcw & _).
  exists widths. split_and!; [done| | | |].
  - by apply renderQuotaTable_plan.
  - apply bodyPlan_rows.
  - apply bodyPlan_separators.
  - apply bodyPlan_length.
Qed.

(** C2. For every row set and every target width of at least 80 (the seven
    floors, 58, and 3 per column plus 1, 22), the widths the layout settles
    on fit the target, and every line of the table has a visible width of
    at most the target. *)
Theorem table_fits_target {T : Tui} (theme : Theme) (laws : TuiLaws T theme)
    (rows : list QuotaRow) (w : Z) :
  (80 ≤ w)%Z →
  totalWidth minColumnWidths = 80 ∧
  ∃ widths lines,
    columnWidths rows (Some w) = Some widths ∧
    (Z.of_nat (totalWidth widths) ≤ w)%Z ∧
    renderQuotaTable theme rows (Some w) = Some lines ∧
    Forall (λ line, (Z.of_nat (visibleWidth line) ≤ w)%Z) lines.
Proof.
  intros Hw. split; [done|].
  destruct (columnWidths_defined rows (Some w)) as (widths & Hcw & Hlen & Hcap).
  assert (Hsup : supplied (Some w) = Some w).
  { unfold supplied. destruct (Z.eqb_spec w 0); [lia | done]. }
  exists widths. eexists. split; [done|]. split; [|split].
  - destruct (columnWidths_stop _ _ _ _ Hsup Hcw) as [Hfit|Hfloor]; [done|].
    pose proof (floors_fit widths Hlen Hfloor (Hcap 5)). lia.
  - by apply renderQuotaTable_plan.
  - assert (Hclip : ∀ s, (Z.of_nat (visibleWidth (clip (Some w) s)) ≤ w)%Z).
    { intros s. unfold clip. rewrite Hsup. apply (truncate_fits _ _ laws). lia. }
    assert (Hborder : ∀ s,
      (Z.of_nat (visibleWidth (fg theme (lit "border") (clip (Some w) s))) ≤ w)%Z).
    { intros s. by rewrite (fg_width _ _ laws). }
    apply Forall_app. split; [|apply Forall_app; split].
    + unfold tableHead. repeat apply Forall_cons_2; [| | | |done].
      * rewrite (fg_width _ _ laws), (bold_width _ _ laws).
        rewrite (ascii_width _ _ laws).
        -- replace (length (lit "Provider Quotas")) with 15 by reflexivity. lia.
        -- by apply (bool_decide_unpack _).
      * apply Hborder.
      * rewrite (fg_width _ _ laws). apply Hclip.
      * apply Hborder.
    + apply Forall_map, Forall_forall. intros [|r] _; [apply Hborder | apply Hclip].
    + apply Forall_cons_2; [apply Hborder | done].
Qed.

(** ** Cells *)

Lemma isBreakOrTab_isControl (c : N) :
  isBreakOrTab c = true → isControl c = true.
Proof.
  unfold isBreakOrTab, isControl.
  rewrite !orb_true_iff, !N.eqb_eq, N.leb_le. lia.
Qed.

Lemma replaceBreakRuns_clean (inRun : bool) (s : JsString) :
  Forall (λ c, isControl c = false) s → replaceBreakRuns inRun s = s.
Proof.
  intros Hs. revert inRun. induction Hs as [|c s Hc _ IH]; intros inRun; [done|].
  simpl. destruct (isBreakOrTab c) eqn:Hb.
  - apply isBreakOrTab_isControl in Hb. congruence.
  - by rewrite IH.
Qed.

Lemma replaceControls_clean (s : JsString) :
  Forall (λ c, isControl c = false) s → replaceControls s = s.
Proof.
  induction 1 as [|c s Hc _ IH]; [done|].
  unfold replaceControls in *. simpl. by rewrite Hc, IH.
Qed.

Lemma normalizeCell_clean (s : JsString) :
  Forall (λ c, isControl c = false) s → normalizeCell s = s.
Proof.
  intros Hs. unfold normalizeCell.
  by rewrite replaceBreakRuns_clean, replaceControls_clean.
Qed.

Lemma normalizeCell_no_controls (s : JsString) :
  Forall (λ c, isControl c = false) (normalizeCell s).
Proof.
  unfold normalizeCell, replaceControls. apply Forall_map, Forall_forall.
  intros c _. simpl. by destruct (isControl c) eqn:Hc.
Qed.

Lemma truncateCell_no_controls (s : JsString) (maxWidth : Z) :
  Forall (λ c, isControl c = false) (truncateCell s maxWidth).
Proof.
  pose proof (normalizeCell_no_controls s) as Hn.
  unfold truncateCell. repeat case_match; try done.
  - by repeat constructor.
  - apply Forall_app. split; [by apply Forall_take | by repeat constructor].
Qed.

Lemma truncateCell_length (s : JsString) (maxWidth : Z) :
  (0 ≤ maxWidth)%Z → (Z.of_nat (length (truncateCell s maxWidth)) ≤ maxWidth)%Z.
Proof.
  intros Hw. unfold truncateCell.
  destruct (Z.leb_spec maxWidth 0); [simpl; lia|].
  destruct (Z.leb_spec (Z.of_nat (length (normalizeCell s))) maxWidth); [done|].
  destruct (Z.leb_spec maxWidth 1); [simpl; lia|].
  rewrite length_app, length_take. simpl. lia.
Qed.

(** C8, as the code has it.  A string without control characters whose
    length in code units is at most the given width is returned unchanged. *)
Theorem truncateCell_short_unchanged (value : JsString) (maxWidth : Z) :
  Forall (λ c, isControl c = false) value →
  (Z.of_nat (length value) ≤ maxWidth)%Z →
  truncateCell value maxWidth = value.
Proof.
  intros Hclean Hlen. unfold truncateCell. rewrite normalizeCell_clean by done.
  destruct (Z.leb_spec maxWidth 0).
  - destruct value; [done | simpl in Hlen; lia].
  - by rewrite (proj2 (Z.leb_le _ _) Hlen).
Qed.

Lemma truncateCell_short_unchanged_witness :
  Forall (λ c, isControl c = false) (lit "copilot") ∧
  (Z.of_nat (length (lit "copilot")) ≤ 8)%Z ∧
  truncateCell (lit "copilot") 8 = lit "copilot".
Proof.
  assert (H1 : Forall (λ c, isControl c = false) (lit "copilot"))
    by (by apply (bool_decide_unpack _)).
  assert (H2 : (Z.of_nat (length (lit "copilot")) ≤ 8)%Z) by (simpl; lia).
  exact (conj H1 (conj H2 (truncateCell_short_unchanged _ _ H1 H2))).
Defined.

(** A short string without control characters passes through. *)
Lemma truncateCell_clean_short (value : JsString) (maxWidth : Z) :
  Forall (λ c, isControl c = false) value →
  (Z.of_nat (length value) ≤ maxWidth)%Z →
  truncateCell value maxWidth = value.
Proof.
  intros Hclean Hlen. unfold truncateCell. rewrite normalizeCell_clean by done.
  destruct (Z.leb_spec maxWidth 0) as [Hle|Hpos].
  - destruct value; [done | simpl in Hlen; lia].
  - by rewrite (proj2 (Z.leb_le _ _) Hlen).
Qed.

(** X3. Truncating twice to the same width is truncating once. *)
Lemma truncateCell_idempotent (value : JsString) (maxWidth : Z) :
  truncateCell (truncateCell value maxWidth) maxWidth = truncateCell value maxWidth.
Proof.
  destruct (Z.leb_spec maxWidth 0) as [Hle|Hpos].
  - unfold truncateCell. by rewrite !(proj2 (Z.leb_le _ _) Hle).
  - apply truncateCell_clean_short.
    + apply truncateCell_no_controls.
    + apply truncateCell_length. lia.
Qed.

(** C8 as stated fails: a tab is one code unit and at most a few cells, far
    under a width of 10, and yet the cell comes back with a space in its
    place. *)
Lemma truncateCell_rewrites_tab :
  (Z.of_nat (visibleWidth (Tui := plainTui) [97; 9; 98]%N) ≤ 10)%Z ∧
  truncateCell [97; 9; 98]%N 10 = [97; 32; 98]%N ∧
  truncateCell [97; 9; 98]%N 10 ≠ [97; 9; 98]%N.
Proof. split; [simpl; lia|]. split; [reflexivity | discriminate]. Qed.

(** ** The progress bar *)

Lemma Qle_bool_false (x y : Q) : Qle_bool x y = false ↔ (y < x)%Q.
Proof.
  rewrite <- not_true_iff_false, Qle_bool_iff. split; [apply Qnot_le_lt|].
  intros Hlt Hle. apply (Qlt_not_le _ _ Hlt Hle).
Qed.

(** The clamp leaves a finite value of [[0,1]], the one [clamp01] names. *)
Lemma clamped_finite (fraction : JsNum) :
  fraction ≠ JNaN →
  ∃ c : Q, jsMax (ofZ 0) (jsMin (ofZ 1) fraction) = JFin c ∧
           (c == clamp01 fraction)%Q ∧ (0 <= c)%Q ∧ (c <= 1)%Q.
Proof.
  intros Hnan. destruct fraction as [|[|]|q]; [done| | |].
  - exists 1%Q. split; [reflexivity|]. split; [reflexivity|]. lra.
  - exists 0%Q. split; [reflexivity|]. split; [reflexivity|]. lra.
  - unfold clamp01, jsMin, jsMax, ofZ, jsLt.
    change (inject_Z 1) with 1%Q. change (inject_Z 0) with 0%Q.
    pose proof (Q.min_spec 1 q) as Hmin.
    pose proof (Q.max_spec 0 (Qmin 1 q)) as Hmax.
    destruct (Qle_bool 1 q) eqn:H1q; cbn [negb].
    + apply Qle_bool_iff in H1q.
      assert (Qle_bool 1 0 = false) as -> by reflexivity.
      cbn [negb]. exists 1%Q. split; [done|]. split; [|lra].
      destruct Hmin as [[? Hmin]|[? Hmin]], Hmax as [[? Hmax]|[? Hmax]]; lra.
    + apply Qle_bool_false in H1q.
      destruct (Qle_bool q 0) eqn:Hq0; cbn [negb].
      * apply Qle_bool_iff in Hq0.
        exists 0%Q. split; [done|]. split; [|lra].
        destruct Hmin as [[? Hmin]|[? Hmin]], Hmax as [[? Hmax]|[? Hmax]]; lra.
      * apply Qle_bool_false in Hq0.
        exists q. split; [done|]. split; [|lra].
        destruct Hmin as [[? Hmin]|[? Hmin]], Hmax as [[? Hmax]|[? Hmax]]; lra.
Qed.

(** The number of filled cells lies between zero and the width. *)
Lemma round_in_range (c : Q) (width : nat) :
  (0 <= c)%Q → (c <= 1)%Q →
  (0 ≤ Qfloor (c * inject_Z (Z.of_nat width) + (1 # 2)) ≤ Z.of_nat width)%Z.
Proof.
  intros H0 H1. set (W := inject_Z (Z.of_nat width)).
  assert (HW : (0 <= W)%Q).
  { unfold W. change 0%Q with (inject_Z 0). rewrite <- Zle_Qle. lia. }
  pose proof (Qmult_le_0_compat _ _ H0 HW) as Hlo.
  pose proof (Qmult_le_compat_r _ _ _ H1 HW) as Hhi.
  split.
  - change 0%Z with (Qfloor 0). apply Qfloor_resp_le. lra.
  - pose proof (Qfloor_le (c * W + (1 # 2))) as Hfl.
    assert (Hlt : (inject_Z (Qfloor (c * W + (1 # 2)))
                   < inject_Z (Z.of_nat width + 1))%Q).
    { rewrite inject_Z_plus. fold W. change (inject_Z 1) with 1%Q. lra. }
    rewrite <- Zlt_Qlt in Hlt. lia.
Qed.

(** The counts the bar asks [repeat] for are whole numbers between zero
    and the width, unless the fraction is NaN, when both counts are NaN. *)
Lemma renderProgressBar_counts (fraction : JsNum) (width : nat) :
  fraction ≠ JNaN →
  ∃ n : Z,
    (0 ≤ n ≤ Z.of_nat width)%Z ∧
    Z.to_nat n = filledCells fraction width ∧
    jsRound (jsMul (jsMax (ofZ 0) (jsMin (ofZ 1) fraction)) (ofNat width)) = ofZ n.
Proof.
  intros Hnan.
  destruct (clamped_finite fraction Hnan) as (c & -> & Hc & H0 & H1).
  exists (Qfloor (c * inject_Z (Z.of_nat width) + (1 # 2))).
  split; [by apply round_in_range|]. split; [|done].
  unfold filledCells. f_equal. apply Qfloor_comp. by rewrite Hc.
Qed.

Lemma renderProgressBar_nan (width : nat) : renderProgressBar JNaN width = [].
Proof. done. Qed.

Lemma repeatCount_ofZ (n : Z) : repeatCount (ofZ n) = Z.to_nat n.
Proof. unfold repeatCount, ofZ. by rewrite Qfloor_Z. Qed.

Lemma renderProgressBar_shape (fraction : JsNum) (width : nat) :
  fraction ≠ JNaN →
  filledCells fraction width ≤ width ∧
  renderProgressBar fraction width
  = replicate (filledCells fraction width) FULL_BLOCK
    ++ replicate (width - filledCells fraction width) LIGHT_SHADE.
Proof.
  intros Hnan.
  destruct (renderProgressBar_counts fraction width Hnan) as (n & Hn & Hk & Hr).
  split; [lia|]. unfold renderProgressBar. cbv zeta. rewrite Hr.
  unfold jsRepeat. rewrite repeatCount_ofZ, Hk. f_equal.
  unfold ofNat, ofZ, jsSub, repeatCount. f_equal.
  assert (Hq : (inject_Z (Z.of_nat width) - inject_Z n
                == inject_Z (Z.of_nat width - n))%Q).
  { unfold Qminus, Z.sub. by rewrite inject_Z_plus, inject_Z_opp. }
  rewrite (Qfloor_comp _ _ Hq), Qfloor_Z. lia.
Qed.

(** C9. For every fraction other than NaN, negative and above 1 included,
    the bar has exactly [width] characters: [round(clamp(fraction,0,1) *
    width)] filled blocks followed by empty blocks.  Hence the Bar cell of
    a row is ["-"] when the row has no remaining fraction and 8 characters
    otherwise, never more than the cap of the Bar column. *)
Theorem progress_bar_width (fraction : JsNum) (width : nat) (row : QuotaRow) :
  fraction ≠ JNaN →
  progressRemaining row ≠ Some JNaN →
  filledCells fraction width ≤ width ∧
  renderProgressBar fraction width
  = replicate (filledCells fraction width) FULL_BLOCK
    ++ replicate (width - filledCells fraction width) LIGHT_SHADE ∧
  length (renderProgressBar fraction width) = width ∧
  match progressRemaining row with
  | None => barValue row = lit "-"
  | Some _ => length (barValue row) = 8
  end ∧
  maxColumnWidths !!! 5 = 8 ∧
  length (barValue row) ≤ maxColumnWidths !!! 5.
Proof.
  intros Hnan Hrow.
  assert (Hlen : ∀ f w, f ≠ JNaN → length (renderProgressBar f w) = w).
  { intros f w Hf. destruct (renderProgressBar_shape f w Hf) as [Hk ->].
    rewrite length_app, !length_replicate. lia. }
  destruct (renderProgressBar_shape fraction width Hnan) as [Hk Hshape].
  split_and!; [done|done|by apply Hlen| |done|].
  - unfold barValue. destruct (progressRemaining row) as [f|]; [|done].
    apply Hlen. congruence.
  - unfold barValue. destruct (progressRemaining row) as [f|]; [|simpl; lia].
    rewrite Hlen by congruence. done.
Qed.

Lemma progress_bar_width_witness :
  JFin (4 # 5) ≠ JNaN ∧
  progressRemaining wideRow ≠ Some JNaN ∧
  renderProgressBar (JFin (4 # 5)) 8
  = replicate 6 FULL_BLOCK ++ replicate 2 LIGHT_SHADE ∧
  length (barValue wideRow) = 8.
Proof.
  assert (H1 : JFin (4 # 5) ≠ JNaN) by discriminate.
  assert (H2 : progressRemaining wideRow ≠ Some JNaN) by discriminate.
  split; [exact H1|]. split; [exact H2|].
  destruct (progress_bar_width (JFin (4 # 5)) 8 wideRow H1 H2)
    as (_ & Hshape & _ & Hbar & _).
  split; [exact Hshape | exact Hbar].
Defined.

(** ** The plain terminal obeys the interface *)

Lemma plain_laws : TuiLaws plainTui plainTheme.
Proof.
  split; try done.
  intros s w Hw. simpl.
  destruct (Z.leb_spec (Z.of_nat (length s)) w); [done|].
  rewrite length_take. lia.
Qed.

Lemma table_fits_target_witness :
  (80 ≤ 80)%Z ∧
  ∃ lines,
    renderQuotaTable (T := plainTui) plainTheme [wideRow] (Some 80%Z) = Some lines ∧
    Forall (λ line, (Z.of_nat (length line) ≤ 80)%Z) lines.
Proof.
  assert (H : (80 ≤ 80)%Z) by lia.
  split; [exact H|].
  destruct (table_fits_target (T := plainTui) plainTheme plain_laws [wideRow] 80 H)
    as (_ & widths & lines & _ & _ & Hlines & Hfit).
  exists lines. split; [exact Hlines | exact Hfit].
Defined.

(** ** Aggregation *)

Section AggregationFacts.
Context {P : Platform}.

Lemma aggregateRows_app (results more : list Entry.ProviderResult) :
  aggregateRows (results ++ more) = aggregateRows results ++ aggregateRows more.
Proof.
  unfold aggregateRows.
  assert (Hgen : ∀ l acc, foldl (λ rows entry, rows ++ entryRows entry) acc l
                          = acc ++ foldl (λ rows entry, rows ++ entryRows entry) [] l).
  { induction l as [|e l IH]; intros acc; simpl.
    - by rewrite app_nil_r.
    - rewrite IH, (IH (entryRows e)). by rewrite app_assoc. }
  by rewrite foldl_app, Hgen.
Qed.

(** The rows are the concatenation of each result's rows, in order. *)
Lemma aggregateRows_concat (results : list Entry.ProviderResult) :
  aggregateRows results = concat (map entryRows results).
Proof.
  induction results as [|e l IH]; [done|].
  change (e :: l) with ([e] ++ l). rewrite aggregateRows_app, IH.
  simpl. unfold aggregateRows. simpl. done.
Qed.

(** The widget never gets an empty row set. *)
Lemma widgetRows_nonempty (results : list Entry.ProviderResult) :
  widgetRows results ≠ [].
Proof.
  unfold widgetRows. destruct (aggregateRows results) eqn:Hrows; simpl; done.
Qed.
End AggregationFacts.

(** No element passes a filter that every element fails. *)
Lemma filter_none {A} (keep : A → Prop) `{!∀ x, Decision (keep x)} (l : list A) :
  Forall (λ x, ¬ keep x) l → filter keep l = [].
Proof.
  induction 1 as [|x l Hx _ IH]; [done|]. by rewrite filter_cons_False.
Qed.

(** A text that ends in a closing parenthesis is not ["No snapshot data"]. *)
Lemma closing_parenthesis_differs (text : JsString) :
  text ++ lit ")" ≠ lit "No snapshot data".
Proof.
  intros Heq. apply (f_equal list.last) in Heq.
  change (lit ")") with [41%N] in Heq. rewrite list.last_snoc in Heq.
  discriminate.
Qed.

Section SnapshotFacts.
Context {P : Platform}.

(** The value of a bucket's row is never the text of the missing-field
    row. *)
Lemma bucket_value_differs (snapshot : Copilot.QuotaSnapshot) :
  (if default false (Copilot.unlimited snapshot)
   then lit "Unlimited"
   else
     match Copilot.percent_remaining snapshot,
           Copilot.remaining snapshot,
           Copilot.entitlement snapshot with
     | Some percentRemaining, Some remaining, Some entitlement =>
         toFixed percentRemaining 1 ++ lit "% ("
           ++ numberToString remaining ++ lit "/"
           ++ numberToString entitlement ++ lit ")"
     | _, _, _ => lit "Partial snapshot data"
     end)
  ≠ lit "No snapshot data".
Proof.
  destruct (default false (Copilot.unlimited snapshot)); [discriminate|].
  destruct (Copilot.percent_remaining snapshot); [|discriminate].
  destruct (Copilot.remaining snapshot); [|discriminate].
  destruct (Copilot.entitlement snapshot); [|discriminate].
  rewrite !app_assoc. apply closing_parenthesis_differs.
Qed.
End SnapshotFacts.

(** C3, as the code has it.  A Copilot answer that carries no
    [quota_snapshots] field yields, after the optional SKU row, exactly one
    row of metric ["quota"] and value ["No snapshot data"] for that
    provider.  An answer that carries the field, be it an empty object,
    yields one row per bucket instead, named after the bucket and reading
    ["Unlimited"], the formatted share or ["Partial snapshot data"], and no
    row of metric ["quota"] and value ["No snapshot data"]. *)
Theorem copilot_snapshot_rows {P : Platform} (providerId : JsString)
    (config : Auth.AuthProviderConfig) (data : Copilot.CopilotUserResponse) :
  ∃ skuRows,
    length skuRows ≤ 1 ∧
    Forall (λ r, metric r = lit "sku") skuRows ∧
    match Copilot.quota_snapshots data with
    | None =>
        ∃ row,
          copilotRows providerId config data = skuRows ++ [row] ∧
          provider row = providerId ∧
          metric row = lit "quota" ∧
          value row = lit "No snapshot data" ∧
          length (filter (λ r, metric r = lit "quota")
                         (copilotRows providerId config data)) = 1 ∧
          length (filter (λ r, metric r = lit "quota"
                               ∧ value r = lit "No snapshot data")
                         (copilotRows providerId config data)) = 1
    | Some snapshots =>
        ∃ bucketRows,
          copilotRows providerId config data = skuRows ++ bucketRows ∧
          map metric bucketRows = map fst snapshots ∧
          Forall2
            (λ row bucket,
               provider row = providerId ∧
               metric row = bucket.1 ∧
               value row
               = if default false (Copilot.unlimited bucket.2)
                 then lit "Unlimited"
                 else
                   match Copilot.percent_remaining bucket.2,
                         Copilot.remaining bucket.2,
                         Copilot.entitlement bucket.2 with
                   | Some percentRemaining, Some remaining, Some entitlement =>
                       toFixed percentRemaining 1 ++ lit "% ("
                         ++ numberToString remaining ++ lit "/"
                         ++ numberToString entitlement ++ lit ")"
                   | _, _, _ => lit "Partial snapshot data"
                   end)
            bucketRows snapshots ∧
          Forall (λ r, value r ≠ lit "No snapshot data") bucketRows ∧
          filter (λ r, metric r = lit "quota" ∧ value r = lit "No snapshot data")
                 (copilotRows providerId config data) = []
    end.
Proof.
  unfold copilotRows.
  set (sku := if truthy (Copilot.access_type_sku data) then _ else _).
  exists sku.
  assert (Hsku : length sku ≤ 1 ∧ Forall (λ r, metric r = lit "sku") sku).
  { subst sku. destruct (truthy _); simpl; split; try lia; by repeat constructor. }
  destruct Hsku as [Hlen Hmetric]. split; [done|]. split; [done|].
  assert (Hnone : ∀ keep : QuotaRow → Prop, ∀ Hdec : ∀ r, Decision (keep r),
            (∀ r, keep r → metric r = lit "quota") → filter keep sku = []).
  { intros keep Hdec Hkeep. apply filter_none.
    eapply list.Forall_impl; [exact Hmetric|].
    intros r Hr Hk. apply Hkeep in Hk. rewrite Hr in Hk. discriminate. }
  destruct (Copilot.quota_snapshots data) as [snapshots|].
  - eexists. split; [done|].
    assert (Hvalues : Forall (λ r, value r ≠ lit "No snapshot data")
              (map (λ '(id, snapshot),
                      plainRow providerId
                        (orElse (Copilot.login data) (getAccountHint providerId config))
                        (orElse (Copilot.copilot_plan data)
                           (orElse (Copilot.sku data) (lit "unknown")))
                        id
                        (if default false (Copilot.unlimited snapshot)
                         then lit "Unlimited"
                         else
                           match Copilot.percent_remaining snapshot,
                                 Copilot.remaining snapshot,
                                 Copilot.entitlement snapshot with
                           | Some percentRemaining, Some remaining,
                             Some entitlement =>
                               toFixed percentRemaining 1 ++ lit "% ("
                                 ++ numberToString remaining ++ lit "/"
                                 ++ numberToString entitlement ++ lit ")"
                           | _, _, _ => lit "Partial snapshot data"
                           end)
                        (if truthy (Copilot.quota_reset_date_utc data)
                         then formatDateUtc
                                (default [] (Copilot.quota_reset_date_utc data))
                         else lit "-"))
                   snapshots)).
    { apply Forall_map, Forall_forall. intros [id snapshot] _.
      apply bucket_value_differs. }
    split_and!.
    + rewrite map_map. apply map_ext. by intros [id snapshot].
    + clear Hvalues. induction snapshots as [|[id snapshot] rest IH];
        constructor; [by split_and! | done].
    + exact Hvalues.
    + rewrite list.filter_app,
        (Hnone (λ r, metric r = lit "quota" ∧ value r = lit "No snapshot data") _
               ltac:(by intros r [? _])).
      apply filter_none. eapply list.Forall_impl; [exact Hvalues|].
      by intros r Hr [_ ?].
  - eexists. split; [done|]. split_and!; try done.
    + rewrite list.filter_app, length_app,
        (Hnone (λ r, metric r = lit "quota") _ ltac:(done)). done.
    + rewrite list.filter_app, length_app,
        (Hnone (λ r, metric r = lit "quota" ∧ value r = lit "No snapshot data") _
               ltac:(by intros r [? _])). done.
Qed.

(** C3 as stated fails for an empty [quota_snapshots] object: no row at
    all comes out of the answer, and the only row the widget then shows is
    the placeholder. *)
Lemma copilot_empty_mapping_no_row :
  Copilot.quota_snapshots emptySnapshots = Some [] ∧
  copilotRows (P := plainPlatform) (lit "github-copilot") Auth.empty emptySnapshots
    = [] ∧
  filter (λ r, value r = lit "No snapshot data")
         (widgetRows (P := plainPlatform) [emptySnapshotsEntry]) = [].
Proof. split; [done|]. split; [done|]. by vm_compute. Qed.

(** C4, as the code has it.  When aggregation produces no row, exactly
    one placeholder row is added before rendering: its provider, account
    and plan read ["-"], its metric ["quota"], its value ["No data"] and its
    reset ["-"]; the table then has its single data line. *)
Theorem empty_aggregate_placeholder {T : Tui} {P : Platform} (theme : Theme)
    (results : list Entry.ProviderResult) (maxWidth : option Z) :
  aggregateRows results = [] →
  widgetRows results = [placeholderRow] ∧
  provider placeholderRow = lit "-" ∧
  account placeholderRow = lit "-" ∧
  plan placeholderRow = lit "-" ∧
  metric placeholderRow = lit "quota" ∧
  value placeholderRow = lit "No data" ∧
  reset placeholderRow = lit "-" ∧
  ∃ widths,
    columnWidths (widgetRows results) maxWidth = Some widths ∧
    renderQuotaTable theme (widgetRows results) maxWidth
    = Some (tableHead theme widths maxWidth
            ++ [renderRow widths maxWidth (rowCells placeholderRow);
                fg theme (lit "border") (clip maxWidth (separatorOf widths))]).
Proof.
  intros Hempty.
  assert (Hrows : widgetRows results = [placeholderRow]).
  { unfold widgetRows. by rewrite Hempty. }
  split_and!; try done.
  destruct (columnWidths_defined (widgetRows results) maxWidth) as (widths & Hcw & _).
  exists widths. split; [done|].
  rewrite (renderQuotaTable_plan theme _ _ _ Hcw), Hrows. done.
Qed.

Lemma empty_aggregate_placeholder_witness :
  aggregateRows (P := plainPlatform) [emptySnapshotsEntry] = [] ∧
  widgetRows (P := plainPlatform) [emptySnapshotsEntry] = [placeholderRow].
Proof.
  assert (H : aggregateRows (P := plainPlatform) [emptySnapshotsEntry] = [])
    by reflexivity.
  split; [exact H|].
  exact (proj1 (empty_aggregate_placeholder (T := plainTui) (P := plainPlatform)
                  plainTheme [emptySnapshotsEntry] None H)).
Defined.

(** C4 as stated fails: the placeholder does not read ["No data"] in its
    provider, account, plan and metric fields; only its value does. *)
Lemma placeholder_reads_dashes :
  widgetRows (P := plainPlatform) [emptySnapshotsEntry] = [placeholderRow] ∧
  provider placeholderRow ≠ lit "No data" ∧
  account placeholderRow ≠ lit "No data" ∧
  plan placeholderRow ≠ lit "No data" ∧
  metric placeholderRow ≠ lit "No data".
Proof. split_and!; [reflexivity | discriminate..]. Qed.

(** A chain of [||] is the first truthy text of the chain. *)
Lemma orElse_firstTruthy (a : option JsString) (rest : list (option JsString))
    (fallback : JsString) :
  orElse a (firstTruthy rest fallback) = firstTruthy (a :: rest) fallback.
Proof. by destruct a as [[|c s]|]. Qed.

Lemma orElse_twice (a : option JsString) (b : JsString) :
  orElse a (orElse a b) = orElse a b.
Proof. by destruct a as [[|c s]|]. Qed.

(** The account and the plan of the rows of a Google result: the stored
    e-mail, login, account id or the provider's name, and the tier's name,
    the tier's id, the plan, the subscription plan or ["unknown"]. *)
Lemma google_account_label (providerId : JsString)
    (config : Auth.AuthProviderConfig) :
  orElse (Auth.email config) (getAccountHint providerId config)
  = firstTruthy [Auth.email config; Auth.login config; Auth.accountId config]
                providerId.
Proof.
  unfold getAccountHint. rewrite orElse_twice.
  change providerId with (firstTruthy [] providerId) at 1.
  by rewrite !orElse_firstTruthy.
Qed.

Lemma google_plan_label (loadData : Google.GoogleLoadCodeAssistResponse) :
  orElse (Google.currentTier loadData ≫= Google.name)
    (orElse (Google.currentTier loadData ≫= Google.id)
       (orElse (Google.plan loadData)
          (orElse (Google.subscriptionPlan loadData) (lit "unknown"))))
  = firstTruthy
      [match Google.currentTier loadData with
       | Some tier => Google.name tier
       | None => None
       end;
       match Google.currentTier loadData with
       | Some tier => Google.id tier
       | None => None
       end;
       Google.plan loadData;
       Google.subscriptionPlan loadData]
      (lit "unknown").
Proof.
  change (lit "unknown") with (firstTruthy [] (lit "unknown")) at 1.
  rewrite !orElse_firstTruthy. by destruct (Google.currentTier loadData).
Qed.

(** C6. When the tier call of the Tiered-Model adapter succeeds and its
    model call answers with a status outside 200-299, the adapter does not
    throw: it returns the data of the tier call, no model data, and the
    soft error ["fetchAvailableModels failed (<status>)"]; normalization
    then gives the prompt-credits row when credits were reported, followed
    by exactly one row of metric ["model_quotas"] that carries the error.
    Every row stands under the plan of the tier call (the tier's name, else
    the tier's id, the plan, the subscription plan, ["unknown"]) and under
    the stored account (e-mail, else login, account id, the provider's
    name). *)
Theorem google_models_failure_is_soft {P : Platform} (net : Network)
    (providerId : JsString) (config : Auth.AuthProviderConfig)
    (ideType : Google.IdeType)
    (loadResponse : Http.Response Google.GoogleLoadCodeAssistResponse)
    (loadData : Google.GoogleLoadCodeAssistResponse)
    (modelsResponse : Http.Response Google.FetchAvailableModelsResponse) :
  truthy (Auth.access config) = true →
  (∀ headers body, loadCodeAssist net headers body = Ok loadResponse) →
  Http.ok loadResponse = true →
  Http.json loadResponse = Ok loadData →
  truthy (resolvedProjectId config loadData) = true →
  (∀ headers project, fetchAvailableModels net headers project = Ok modelsResponse) →
  Http.ok modelsResponse = false →
  ∃ data,
    fetchGoogleQuota net config ideType = Ok data ∧
    Google.loadData data = loadData ∧
    Google.modelsData data = None ∧
    Google.modelsError data
    = Some (lit "fetchAvailableModels failed ("
              ++ showZ (Http.status modelsResponse) ++ lit ")") ∧
    googleRows providerId config data
    = (let accountLabel :=
         firstTruthy [Auth.email config; Auth.login config; Auth.accountId config]
                     providerId in
       let planLabel :=
         firstTruthy
           [match Google.currentTier loadData with
            | Some tier => Google.name tier
            | None => None
            end;
            match Google.currentTier loadData with
            | Some tier => Google.id tier
            | None => None
            end;
            Google.plan loadData;
            Google.subscriptionPlan loadData]
           (lit "unknown") in
       match Google.availablePromptCredits loadData with
       | Some credits =>
           [plainRow providerId accountLabel planLabel (lit "prompt_credits")
                     (numberToString credits) (lit "-")]
       | None => []
       end
       ++ [plainRow providerId accountLabel planLabel (lit "model_quotas")
                    (lit "fetchAvailableModels failed ("
                       ++ showZ (Http.status modelsResponse) ++ lit ")")
                    (lit "-")]) ∧
    length (filter (λ r, metric r = lit "model_quotas")
                   (googleRows providerId config data)) = 1.
Proof.
  intros Haccess Hload Hok1 Hjson Hproject Hmodels Hok2.
  eexists. split.
  { unfold fetchGoogleQuota. rewrite Haccess. cbn [negb].
    rewrite Hload. cbn [mbind exn_bind]. rewrite Hok1. cbn [negb].
    rewrite Hjson. cbn [mbind exn_bind]. cbv zeta. rewrite Hproject.
    rewrite Hmodels. cbn [mbind exn_bind]. rewrite Hok2. reflexivity. }
  cbn [Google.loadData Google.modelsData Google.modelsError].
  split_and!; try done.
  - cbv zeta. rewrite <- google_account_label, <- google_plan_label.
    unfold googleRows.
    cbn [Google.loadData Google.modelsData Google.modelsError
         collectGoogleModelRows].
    destruct (Google.availablePromptCredits loadData); reflexivity.
  - unfold googleRows.
    cbn [Google.loadData Google.modelsData Google.modelsError
         collectGoogleModelRows].
    destruct (Google.availablePromptCredits loadData); reflexivity.
Qed.

Lemma google_models_failure_is_soft_witness :
  truthy (Auth.access geminiConfig) = true ∧
  truthy (resolvedProjectId geminiConfig tierAnswer) = true ∧
  ∃ data,
    fetchGoogleQuota failingModelsNetwork geminiConfig
                     Google.IDE_UNSPECIFIED = Ok data ∧
    googleRows (P := plainPlatform) (lit "google-gemini-cli") geminiConfig data
    = [plainRow (lit "google-gemini-cli") (lit "someone@example.com")
                (lit "Standard") (lit "prompt_credits") (lit "500") (lit "-");
       plainRow (lit "google-gemini-cli") (lit "someone@example.com")
                (lit "Standard") (lit "model_quotas")
                (lit "fetchAvailableModels failed (500)") (lit "-")].
Proof.
  split; [reflexivity|]. split; [reflexivity|].
  destruct (google_models_failure_is_soft (P := plainPlatform)
              failingModelsNetwork (lit "google-gemini-cli") geminiConfig
              Google.IDE_UNSPECIFIED
              (respond 200 (Ok tierAnswer)) tierAnswer
              (respond 500 (Throw (lit "Unexpected token")))
              eq_refl (λ _ _, eq_refl) eq_refl eq_refl eq_refl
              (λ _ _, eq_refl) eq_refl)
    as (data & Hfetch & _ & _ & _ & Hrows & _).
  exists data. split; [exact Hfetch|]. rewrite Hrows. reflexivity.
Defined.

(** ** Token claims *)

Section TokenFacts.
Context {P : Platform}.


(** A token with claims the decoder can read comes back with them. *)
Lemma decodeJwtPayload_parsed (s : JsString) (claims : Json) :
  length (jsSplit 46%N s) = 3 →
  jsonParse (decodeSegment (jsSplit 46%N s !!! 1)) = Ok claims →
  decodeJwtPayload (Some s) = Ok (Some claims).
Proof.
  intros Hparts Hjson. unfold decodeJwtPayload.
  destruct s as [|c s]; [done|]. cbn [truthy negb].
  change (default [] (Some (c :: s))) with (c :: s).
  rewrite Hparts. cbn [Nat.eqb negb]. by rewrite Hjson.
Qed.
End TokenFacts.

(** C7. For every malformed token (not three segments between dots, or a
    middle segment that does not decode to JSON) and for an absent token,
    the decoder returns the no-claims value and does not throw.  With it
    the adapter goes on without claims: given an account id in the stored
    credentials and a successful probe, it returns its data, with no
    e-mail and no plan from the token. *)
Theorem malformed_token_no_claims {P : Platform} (token : option JsString) :
  malformed token →
  decodeJwtPayload token = Ok None ∧
  ∀ (net : Network) (config : Auth.AuthProviderConfig)
    (response : Http.Response unit),
    Auth.access config = token →
    truthy token = true →
    truthy (Auth.accountId config) = true →
    (∀ headers, codexResponses net headers = Ok response) →
    Http.ok response = true →
    ∃ data,
      fetchOpenAICodexQuota net config = Ok data ∧
      Some (Codex.accountId data) = Auth.accountId config ∧
      Codex.emailFromToken data = None ∧
      Codex.planFromToken data = None.
Proof.
  intros Hbad.
  assert (Hdecode : decodeJwtPayload token = Ok None).
  { unfold decodeJwtPayload. destruct token as [[|c s]|]; [done| |done].
    cbn [truthy negb]. change (default [] (Some (c :: s))) with (c :: s).
    destruct Hbad as [Hparts|[message Hjson]].
    - by rewrite (proj2 (Nat.eqb_neq _ _) Hparts).
    - destruct (length _ =? 3); [|done]. cbn [negb]. by rewrite Hjson. }
  split; [done|].
  intros net config response Haccess Htoken Hacct Hfetch Hok.
  unfold fetchOpenAICodexQuota. rewrite Haccess, Htoken. cbn [negb].
  rewrite Hdecode. cbn [mbind exn_bind jsonGet asRecord stringField].
  unfold orOpt. rewrite Hacct. cbn [negb]. rewrite Hfetch.
  cbn [mbind exn_bind]. rewrite Hok. cbn [negb]. rewrite Hacct. cbn [negb].
  eexists. split; [done|]. cbn [Codex.accountId Codex.emailFromToken Codex.planFromToken].
  split_and!; try done.
  destruct (Auth.accountId config); done.
Qed.

Lemma malformed_token_no_claims_witness :
  malformed (P := plainPlatform) (Some (lit "header.payload")) ∧
  decodeJwtPayload (P := plainPlatform) (Some (lit "header.payload")) = Ok None ∧
  ∃ data,
    fetchOpenAICodexQuota (P := plainPlatform) failingModelsNetwork codexConfig
      = Ok data ∧
    Codex.accountId data = lit "acct-1".
Proof.
  assert (H : malformed (P := plainPlatform) (Some (lit "header.payload")))
    by (left; vm_compute; discriminate).
  split; [exact H|].
  destruct (malformed_token_no_claims (P := plainPlatform) _ H) as [Hdecode Hprobe].
  split; [exact Hdecode|].
  destruct (Hprobe failingModelsNetwork codexConfig (respond 200 (Ok tt))
              eq_refl eq_refl eq_refl (λ _, eq_refl) eq_refl)
    as (data & Hfetch & Hacct & _).
  exists data. split; [exact Hfetch|]. by injection Hacct.
Defined.

(** * Further properties *)

(** ** Cells, again *)

(** X1. A cell never exceeds its width: the result has at most
    [max 0 maxWidth] code units, whatever the value. *)
Theorem truncateCell_within_width (value : JsString) (maxWidth : Z) :
  (Z.of_nat (length (truncateCell value maxWidth)) ≤ Z.max 0 maxWidth)%Z.
Proof.
  destruct (Z.leb_spec maxWidth 0) as [Hle|Hpos].
  - unfold truncateCell. rewrite (proj2 (Z.leb_le _ _) Hle). simpl. lia.
  - pose proof (truncateCell_length value maxWidth). lia.
Qed.

(** X2. A cell holds no line break, tab or other control character, so a
    value cannot break the line of the table it is drawn in. *)
Theorem truncateCell_single_line (value : JsString) (maxWidth : Z) (c : N) :
  c ∈ truncateCell value maxWidth →
  c ≠ 10%N ∧ c ≠ 13%N ∧ c ≠ 9%N ∧ c ≠ 27%N ∧ (31 < c)%N ∧ c ≠ 127%N.
Proof.
  intros Hin.
  pose proof (truncateCell_no_controls value maxWidth) as Hall.
  rewrite list.Forall_forall in Hall. specialize (Hall c Hin).
  unfold isControl in Hall. apply orb_false_iff in Hall as [H1 H2].
  apply N.leb_gt in H1. apply N.eqb_neq in H2. lia.
Qed.

Lemma truncateCell_single_line_witness :
  8230%N ∈ truncateCell (lit "line one and line two") 5 ∧ (31 < 8230)%N.
Proof.
  assert (H : 8230%N ∈ truncateCell (lit "line one and line two") 5)
    by (vm_compute; repeat constructor).
  split; [exact H|].
  exact (proj1 (proj2 (proj2 (proj2 (proj2
    (truncateCell_single_line (lit "line one and line two") 5 8230%N H)))))).
Defined.

(** X4. When the normalized value is longer than a positive width, the
    cell is cut to exactly that width: the first [maxWidth - 1] units of
    the normalized value and an ellipsis. *)
Theorem truncateCell_cut (value : JsString) (maxWidth : Z) :
  (0 < maxWidth)%Z →
  (maxWidth < Z.of_nat (length (normalizeCell value)))%Z →
  truncateCell value maxWidth
  = take (Z.to_nat (maxWidth - 1)) (normalizeCell value) ++ [ELLIPSIS] ∧
  Z.of_nat (length (truncateCell value maxWidth)) = maxWidth.
Proof.
  intros Hpos Hlong. unfold truncateCell.
  rewrite (proj2 (Z.leb_gt _ _) Hpos), (proj2 (Z.leb_gt _ _) Hlong).
  destruct (Z.leb_spec maxWidth 1) as [Hone|Hmore].
  - assert (maxWidth = 1%Z) as -> by lia. done.
  - split; [done|]. rewrite length_app, length_take. simpl. lia.
Qed.

Lemma truncateCell_cut_witness :
  (0 < 5)%Z ∧
  (5 < Z.of_nat (length (normalizeCell (lit "premium_interactions"))))%Z ∧
  truncateCell (lit "premium_interactions") 5 = lit "prem" ++ [ELLIPSIS].
Proof.
  assert (H1 : (0 < 5)%Z) by lia.
  assert (H2 : (5 < Z.of_nat (length (normalizeCell (lit "premium_interactions"))))%Z)
    by (vm_compute; reflexivity).
  split; [exact H1|]. split; [exact H2|].
  exact (proj1 (truncateCell_cut (lit "premium_interactions") 5 H1 H2)).
Defined.

(** The normalized value is never longer than the value. *)
Lemma replaceBreakRuns_length (inRun : bool) (s : JsString) :
  length (replaceBreakRuns inRun s) ≤ length s.
Proof.
  revert inRun. induction s as [|c s IH]; intros inRun; [done|].
  pose proof (IH true). pose proof (IH false).
  simpl. destruct (isBreakOrTab c); [destruct inRun|]; simpl; lia.
Qed.

(** ** Widths and lines, again *)

Lemma jsJoin_length (sep : JsString) (parts : list JsString) :
  parts ≠ [] →
  length (jsJoin sep parts) + length sep
  = sum_list (map length parts) + length parts * length sep.
Proof.
  induction parts as [|p rest IH]; [done|]. intros _.
  destruct rest as [|q rest]; [simpl; lia|].
  specialize (IH ltac:(done)).
  change (jsJoin sep (p :: q :: rest)) with (p ++ sep ++ jsJoin sep (q :: rest)).
  rewrite !length_app. cbn [map sum_list length] in *. unfold id in *. nia.
Qed.

Lemma separatorOf_length (widths : list nat) :
  widths ≠ [] → length (separatorOf widths) = totalWidth widths.
Proof.
  intros Hne. unfold separatorOf, totalWidth.
  rewrite !length_app.
  pose proof (jsJoin_length (lit "+") (map (λ w, replicate (w + 2) 45%N) widths))
    as Hjoin.
  rewrite length_map in Hjoin.
  assert (Hsum : sum_list (map length (map (λ w, replicate (w + 2) 45%N) widths))
                 = sum_list widths + 2 * length widths).
  { clear. induction widths as [|w l IH]; [done|].
    simpl in *. rewrite length_replicate, IH. unfold id. lia. }
  rewrite Hsum in Hjoin. specialize (Hjoin ltac:(by destruct widths)).
  change (length (lit "+")) with 1 in *. lia.
Qed.

(** X5. The border of the table is exactly as long as the width the
    layout computes for it: the sum of the column widths, three per column
    and one. *)
Theorem border_matches_total {T : Tui} (rows : list QuotaRow)
    (maxWidth : option Z) :
  ∃ widths,
    columnWidths rows maxWidth = Some widths ∧
    length (separatorOf widths) = totalWidth widths.
Proof.
  destruct (columnWidths_defined rows maxWidth) as (widths & Hcw & Hlen & _).
  exists widths. split; [done|]. apply separatorOf_length.
  intros ->. done.
Qed.

Lemma naturalWidths_total {T : Tui} (data : list (list JsString)) :
  totalWidth (naturalWidths data) ≤ 116.
Proof.
  pose proof (naturalWidths_cap data) as Hcap.
  pose proof (Hcap 0). pose proof (Hcap 1). pose proof (Hcap 2).
  pose proof (Hcap 3). pose proof (Hcap 4). pose proof (Hcap 5).
  pose proof (Hcap 6). clear Hcap.
  pose proof (naturalWidths_length data) as Hlen.
  destruct (naturalWidths data) as [|a [|b [|c [|d [|e [|f [|g [|? ?]]]]]]]];
    try done. cbn in *. lia.
Qed.

(** X6. Without a width, with a width of zero, or with a width of 116 or
    more (the seven caps, 94, and 22), no column is shrunk: the table is
    drawn with its natural widths. *)
Theorem wide_target_keeps_natural {T : Tui} (rows : list QuotaRow)
    (maxWidth : option Z) :
  supplied maxWidth = None ∨ (∃ w, maxWidth = Some w ∧ (116 ≤ w)%Z) →
  columnWidths rows maxWidth = Some (naturalWidths (map rowCells rows)).
Proof.
  intros Hcase. unfold columnWidths.
  destruct Hcase as [->|(w & -> & Hw)]; [done|].
  unfold supplied. destruct (Z.eqb_spec w 0); [done|].
  pose proof (naturalWidths_total (map rowCells rows)).
  destruct (Z.ltb_spec w (Z.of_nat (totalWidth (naturalWidths (map rowCells rows)))));
    [lia | done].
Qed.

Lemma wide_target_keeps_natural_witness :
  (supplied (Some 120%Z) = None ∨ ∃ w, Some 120%Z = Some w ∧ (116 ≤ w)%Z) ∧
  columnWidths (T := plainTui) [wideRow] (Some 120%Z)
  = Some [14; 18; 12; 14; 14; 8; 14].
Proof.
  assert (H : supplied (Some 120%Z) = None ∨ ∃ w, Some 120%Z = Some w ∧ (116 ≤ w)%Z)
    by (right; exists 120%Z; split; [reflexivity | lia]).
  split; [exact H|].
  exact (wide_target_keeps_natural (T := plainTui) [wideRow] (Some 120%Z) H).
Defined.

(** X7. Whatever the rows and the target, the layout has seven widths;
    each is at most the cap of its column and at most its natural width,
    and at least the smaller of its natural width and its floor; the Bar
    column keeps its natural width. *)
Theorem column_widths_invariant {T : Tui} (rows : list QuotaRow)
    (maxWidth : option Z) :
  ∃ widths,
    columnWidths rows maxWidth = Some widths ∧
    length widths = 7 ∧
    (∀ i, widths !!! i ≤ maxColumnWidths !!! i) ∧
    (∀ i, Nat.min (naturalWidths (map rowCells rows) !!! i)
                  (minColumnWidths !!! i) ≤ widths !!! i
          ≤ naturalWidths (map rowCells rows) !!! i) ∧
    widths !!! 5 = naturalWidths (map rowCells rows) !!! 5.
Proof.
  destruct (columnWidths_defined rows maxWidth) as (widths & Hcw & Hlen & Hcap).
  exists widths. split_and!; try done.
  - intros i. unfold columnWidths in Hcw.
    destruct (supplied maxWidth) as [w|]; [|inversion Hcw; lia].
    case_match; [|inversion Hcw; lia].
    by apply (shrinkLoop_bounds _ _ _ _ _ i) in Hcw.
  - unfold columnWidths in Hcw.
    destruct (supplied maxWidth) as [w|]; [|by inversion Hcw].
    case_match; [|by inversion Hcw].
    apply shrinkLoop_rounds in Hcw as ((k & m & _ & ->) & _).
    assert (Hbar : 5 ∉ shrinkOrder) by (by apply (bool_decide_unpack _)).
    rewrite fullPass_untouched, rounds_untouched; [done|done|].
    intros (j & Hj & _)%elem_of_take.
    by apply list_elem_of_lookup_2 in Hj.
Qed.

(** X8. The table has five lines besides its body (title, border, header,
    border, closing border), one line per row and one per change of
    provider; the widget adds its footer as the last line. *)
Theorem table_line_count {T : Tui} (theme : Theme) (rows : list QuotaRow)
    (maxWidth : option Z) (width : Z) :
  (∃ lines,
     renderQuotaTable theme rows maxWidth = Some lines ∧
     length lines = 5 + length rows + transitions rows) ∧
  ∃ lines,
    renderWidget theme rows width = Some lines ∧
    length lines = 6 + length rows + transitions rows ∧
    list.last lines
    = Some (truncateToWidth (fg theme (lit "dim") (lit "(Auto-closes in 30s)"))
                            width).
Proof.
  assert (Htable : ∀ mw, ∃ lines,
            renderQuotaTable theme rows mw = Some lines ∧
            length lines = 5 + length rows + transitions rows).
  { intros mw. destruct (columnWidths_defined rows mw) as (widths & Hcw & _).
    eexists. split; [by apply renderQuotaTable_plan|].
    rewrite !length_app, length_map, bodyPlan_length. simpl. lia. }
  split; [apply Htable|].
  destruct (Htable (Some width)) as (lines & Hlines & Hlen).
  unfold renderWidget. rewrite Hlines. cbn [mbind option_bind].
  eexists. split; [done|]. rewrite length_app, list.last_snoc. simpl. split; [lia|done].
Qed.

(** X9. In a terminal where every code unit is one cell and truncation
    leaves a text that fits alone, every row of the table, header
    included, is as long as the border before the final clip: cells are
    cut or padded to exactly their column's width. *)
Theorem rows_align_with_border {T : Tui} (rows : list QuotaRow)
    (maxWidth : option Z) :
  (∀ s, visibleWidth s = length s) →
  (∀ s (w : Z), (Z.of_nat (length s) ≤ w)%Z → truncateToWidth s w = s) →
  ∃ widths,
    columnWidths rows maxWidth = Some widths ∧
    length (renderRow widths None headers) = totalWidth widths ∧
    ∀ row, length (renderRow widths None (rowCells row)) = totalWidth widths.
Proof.
  intros Hmono Hkeep.
  destruct (columnWidths_defined rows maxWidth) as (widths & Hcw & Hlen & _).
  exists widths. split; [done|].
  assert (Hcell : ∀ c w,
            length (padVisible (truncateToWidth (truncateCell c (Z.of_nat w))
                                                (Z.of_nat w)) w) = w).
  { intros c w. pose proof (truncateCell_length c (Z.of_nat w) ltac:(lia)) as Hc.
    rewrite (Hkeep _ _ Hc). unfold padVisible. rewrite Hmono.
    rewrite length_app, length_replicate. lia. }
  assert (Hrow : ∀ cols, length cols = 7 →
            length (renderRow widths None cols) = totalWidth widths).
  { intros cols Hcols. unfold renderRow, clip. cbn [supplied].
    do 7 (destruct widths as [|? widths]; [done|]). destruct widths; [|done].
    do 7 (destruct cols as [|? cols]; [done|]). destruct cols; [|done].
    cbn [imap jsJoin]. rewrite !length_app. unfold compose.
    cbn [lookup_total list_lookup_total]. rewrite !Hcell.
    unfold totalWidth. cbn. lia. }
  split; [by apply Hrow|]. intros row. by apply Hrow.
Qed.

Lemma rows_align_with_border_witness :
  (∀ s, visibleWidth (Tui := plainTui) s = length s) ∧
  (∀ s (w : Z), (Z.of_nat (length s) ≤ w)%Z →
                truncateToWidth (Tui := plainTui) s w = s) ∧
  ∃ widths,
    columnWidths (T := plainTui) [wideRow] (Some 100%Z) = Some widths ∧
    length (renderRow (T := plainTui) widths None (rowCells wideRow))
    = totalWidth widths.
Proof.
  assert (H1 : ∀ s, visibleWidth (Tui := plainTui) s = length s)
    by reflexivity.
  assert (H2 : ∀ s (w : Z), (Z.of_nat (length s) ≤ w)%Z →
                            truncateToWidth (Tui := plainTui) s w = s).
  { intros s w Hw. simpl. by rewrite (proj2 (Z.leb_le _ _) Hw). }
  split; [exact H1|]. split; [exact H2|].
  destruct (rows_align_with_border (T := plainTui) [wideRow] (Some 100%Z) H1 H2)
    as (widths & Hcw & _ & Hrows).
  exists widths. split; [exact Hcw | exact (Hrows wideRow)].
Defined.

(** ** The progress bar, again *)

Lemma clamp01_bounds (fraction : JsNum) :
  (0 <= clamp01 fraction)%Q ∧ (clamp01 fraction <= 1)%Q.
Proof.
  destruct fraction as [|[|]|q]; simpl; try lra.
  pose proof (Q.min_spec 1 q) as Hmin.
  pose proof (Q.max_spec 0 (Qmin 1 q)) as Hmax.
  destruct Hmin as [[? Hmin]|[? Hmin]], Hmax as [[? Hmax]|[? Hmax]]; lra.
Qed.

Lemma filledCells_mono (f1 f2 : JsNum) (width : nat) :
  (clamp01 f1 <= clamp01 f2)%Q → filledCells f1 width ≤ filledCells f2 width.
Proof.
  intros Hle. unfold filledCells. apply Z2Nat.inj_le.
  - change 0%Z with (Qfloor 0). apply Qfloor_resp_le.
    pose proof (clamp01_bounds f1) as [H0 _].
    assert (HW : (0 <= inject_Z (Z.of_nat width))%Q).
    { change 0%Q with (inject_Z 0). rewrite <- Zle_Qle. lia. }
    pose proof (Qmult_le_0_compat _ _ H0 HW). lra.
  - change 0%Z with (Qfloor 0). apply Qfloor_resp_le.
    pose proof (clamp01_bounds f2) as [H0 _].
    assert (HW : (0 <= inject_Z (Z.of_nat width))%Q).
    { change 0%Q with (inject_Z 0). rewrite <- Zle_Qle. lia. }
    pose proof (Qmult_le_0_compat _ _ H0 HW). lra.
  - apply Qfloor_resp_le.
    assert (HW : (0 <= inject_Z (Z.of_nat width))%Q).
    { change 0%Q with (inject_Z 0). rewrite <- Zle_Qle. lia. }
    pose proof (Qmult_le_compat_r _ _ _ Hle HW). lra.
Qed.

(** The order of numbers carries over to their clamps. *)
Lemma clamp01_mono (f1 f2 : JsNum) :
  f1 ≠ JNaN → f2 ≠ JNaN → jsLt f2 f1 = false →
  (clamp01 f1 <= clamp01 f2)%Q.
Proof.
  intros H1 H2 Hlt.
  pose proof (clamp01_bounds f1) as [? ?].
  pose proof (clamp01_bounds f2) as [? ?].
  destruct f1 as [|[|]|q1]; [done| | |]; destruct f2 as [|[|]|q2]; try done;
    simpl in *; try lra; try discriminate.
  apply negb_false_iff, Qle_bool_iff in Hlt.
  by apply Q.max_le_compat_l, Q.min_le_compat_l.
Qed.

(** X10. The bar grows with the fraction: of two fractions other than
    NaN, the one that is not smaller has at least as many filled cells. *)
Theorem progress_bar_monotone (f1 f2 : JsNum) (width : nat) :
  f1 ≠ JNaN → f2 ≠ JNaN → jsLt f2 f1 = false →
  ∃ k1 k2,
    k1 ≤ k2 ≤ width ∧
    renderProgressBar f1 width
    = replicate k1 FULL_BLOCK ++ replicate (width - k1) LIGHT_SHADE ∧
    renderProgressBar f2 width
    = replicate k2 FULL_BLOCK ++ replicate (width - k2) LIGHT_SHADE.
Proof.
  intros H1 H2 Hle.
  destruct (renderProgressBar_shape f1 width H1) as [Hk1 Hs1].
  destruct (renderProgressBar_shape f2 width H2) as [Hk2 Hs2].
  exists (filledCells f1 width), (filledCells f2 width).
  split; [|by split]. split; [|done].
  by apply filledCells_mono, clamp01_mono.
Qed.

Lemma progress_bar_monotone_witness :
  JFin (1 # 4) ≠ JNaN ∧ JFin (3 # 4) ≠ JNaN ∧
  jsLt (JFin (3 # 4)) (JFin (1 # 4)) = false ∧
  ∃ k1 k2, k1 ≤ k2 ≤ 8 ∧
    renderProgressBar (JFin (1 # 4)) 8
    = replicate k1 FULL_BLOCK ++ replicate (8 - k1) LIGHT_SHADE ∧
    renderProgressBar (JFin (3 # 4)) 8
    = replicate k2 FULL_BLOCK ++ replicate (8 - k2) LIGHT_SHADE.
Proof.
  assert (H1 : JFin (1 # 4) ≠ JNaN) by discriminate.
  assert (H2 : JFin (3 # 4) ≠ JNaN) by discriminate.
  assert (H3 : jsLt (JFin (3 # 4)) (JFin (1 # 4)) = false) by reflexivity.
  split; [exact H1|]. split; [exact H2|]. split; [exact H3|].
  exact (progress_bar_monotone (JFin (1 # 4)) (JFin (3 # 4)) 8 H1 H2 H3).
Defined.

Lemma Qfloor_half (n : Z) : Qfloor (inject_Z n + (1 # 2)) = n.
Proof.
  pose proof (Qfloor_le (inject_Z n + (1 # 2))) as Hlo.
  pose proof (Qlt_floor (inject_Z n + (1 # 2))) as Hhi.
  assert (H1 : (inject_Z (Qfloor (inject_Z n + (1 # 2))) < inject_Z (n + 1))%Q).
  { rewrite inject_Z_plus. change (inject_Z 1) with 1%Q. lra. }
  assert (H2 : (inject_Z n < inject_Z (Qfloor (inject_Z n + (1 # 2)) + 1))%Q)
    by lra.
  rewrite <- Zlt_Qlt in H1, H2. lia.
Qed.

(** X11. A fraction of zero or less, minus infinity included, draws an
    empty bar; a fraction of one or more, plus infinity included, draws a
    full bar. *)
Theorem progress_bar_ends (low high : Q) (width : nat) :
  (low <= 0)%Q → (1 <= high)%Q →
  renderProgressBar (JFin low) width = replicate width LIGHT_SHADE ∧
  renderProgressBar (JInf false) width = replicate width LIGHT_SHADE ∧
  renderProgressBar (JFin high) width = replicate width FULL_BLOCK ∧
  renderProgressBar (JInf true) width = replicate width FULL_BLOCK.
Proof.
  intros Hlow Hhigh.
  assert (Hempty : ∀ f, f ≠ JNaN → (clamp01 f == 0)%Q →
            renderProgressBar f width = replicate width LIGHT_SHADE).
  { intros f Hf Hc. destruct (renderProgressBar_shape f width Hf) as [_ ->].
    assert (filledCells f width = 0) as ->.
    { unfold filledCells.
      assert (Hq : (clamp01 f * inject_Z (Z.of_nat width) + (1 # 2) == 1 # 2)%Q)
        by (rewrite Hc; ring).
      by rewrite (Qfloor_comp _ _ Hq). }
    by rewrite Nat.sub_0_r. }
  assert (Hfull : ∀ f, f ≠ JNaN → (clamp01 f == 1)%Q →
            renderProgressBar f width = replicate width FULL_BLOCK).
  { intros f Hf Hc. destruct (renderProgressBar_shape f width Hf) as [_ ->].
    assert (filledCells f width = width) as ->.
    { unfold filledCells.
      assert (Hq : (clamp01 f * inject_Z (Z.of_nat width) + (1 # 2)
                    == inject_Z (Z.of_nat width) + (1 # 2))%Q)
        by (rewrite Hc; ring).
      rewrite (Qfloor_comp _ _ Hq), Qfloor_half. lia. }
    by rewrite Nat.sub_diag, app_nil_r. }
  split_and!.
  - apply Hempty; [done|]. simpl.
    pose proof (Q.min_spec 1 low) as Hmin.
    pose proof (Q.max_spec 0 (Qmin 1 low)) as Hmax.
    destruct Hmin as [[? Hmin]|[? Hmin]], Hmax as [[? Hmax]|[? Hmax]]; lra.
  - by apply Hempty.
  - apply Hfull; [done|]. simpl.
    pose proof (Q.min_spec 1 high) as Hmin.
    pose proof (Q.max_spec 0 (Qmin 1 high)) as Hmax.
    destruct Hmin as [[? Hmin]|[? Hmin]], Hmax as [[? Hmax]|[? Hmax]]; lra.
  - by apply Hfull.
Qed.

Lemma progress_bar_ends_witness :
  (-(1 # 2) <= 0)%Q ∧ (1 <= 3 # 2)%Q ∧
  renderProgressBar (JFin (-(1 # 2))) 8 = replicate 8 LIGHT_SHADE ∧
  renderProgressBar (JFin (3 # 2)) 8 = replicate 8 FULL_BLOCK.
Proof.
  assert (H1 : (-(1 # 2) <= 0)%Q) by (by compute).
  assert (H2 : (1 <= 3 # 2)%Q) by (by compute).
  split; [exact H1|]. split; [exact H2|].
  destruct (progress_bar_ends (-(1 # 2)) (3 # 2) 8 H1 H2) as (Ha & _ & Hb & _).
  split; [exact Ha | exact Hb].
Defined.

(** ** Aggregation, again *)

Lemma orElse_nonempty (a : option JsString) (b : JsString) :
  b ≠ [] → orElse a b ≠ [].
Proof. intros Hb. by destruct a as [[|c s]|]. Qed.

Lemma orElse_nonempty_or (a : option JsString) (b : JsString) :
  orElse a b ≠ [] ∨ b = [].
Proof. destruct a as [[|c s]|], b; simpl; auto. Qed.

Lemma getAccountHint_nonempty_or (providerId : JsString)
    (config : Auth.AuthProviderConfig) :
  getAccountHint providerId config ≠ [] ∨ providerId = [].
Proof.
  unfold getAccountHint.
  destruct (orElse_nonempty_or (Auth.accountId config) providerId) as [H|H];
    [left | by right].
  by do 2 apply orElse_nonempty.
Qed.

Section EntryFacts.
Context {P : Platform}.

Lemma collectGoogleModelRows_uniform (p a pl : JsString)
    (modelsData : option Google.FetchAvailableModelsResponse) :
  uniformRows p a pl (collectGoogleModelRows p a pl modelsData).
Proof.
  unfold collectGoogleModelRows, uniformRows.
  destruct modelsData as [data|]; [|done].
  destruct (Google.models data); [|done].
  by apply Forall_map, Forall_forall.
Qed.

Lemma copilotRows_uniform (p : JsString) (config : Auth.AuthProviderConfig)
    (data : Copilot.CopilotUserResponse) :
  ∃ a pl, uniformRows p a pl (copilotRows p config data) ∧
          pl ≠ [] ∧ (a ≠ [] ∨ p = []).
Proof.
  unfold copilotRows. eexists _, _. split; [|split].
  - apply Forall_app. split.
    + destruct (truthy _); uniform_rows.
    + destruct (Copilot.quota_snapshots data); [|uniform_rows].
      apply Forall_map, Forall_forall. by intros [id snapshot] _.
  - by do 2 apply orElse_nonempty.
  - destruct (getAccountHint_nonempty_or p config) as [H|H]; [|by right].
    left. by apply orElse_nonempty.
Qed.

Lemma googleRows_uniform (p : JsString) (config : Auth.AuthProviderConfig)
    (data : Google.Data) :
  ∃ a pl, uniformRows p a pl (googleRows p config data) ∧
          pl ≠ [] ∧ (a ≠ [] ∨ p = []).
Proof.
  unfold googleRows. eexists _, _. split; [|split].
  - apply Forall_app; split; [|apply Forall_app; split; [|apply Forall_app; split]].
    + destruct (Google.availablePromptCredits _); uniform_rows.
    + apply collectGoogleModelRows_uniform.
    + destruct (truthy _); uniform_rows.
    + case_match; uniform_rows.
  - by do 4 apply orElse_nonempty.
  - destruct (getAccountHint_nonempty_or p config) as [H|H]; [|by right].
    left. by apply orElse_nonempty.
Qed.

Lemma codexRows_uniform (p : JsString) (config : Auth.AuthProviderConfig)
    (data : Codex.Data) :
  ∃ a pl, uniformRows p a pl (codexRows p config data) ∧
          pl ≠ [] ∧ (a ≠ [] ∨ p = []).
Proof.
  unfold codexRows. eexists _, _. split; [|split].
  - apply Forall_app; split; [|apply Forall_app; split].
    + uniform_rows.
    + destruct (Codex.primaryOverSecondaryPercent _); uniform_rows.
    + repeat case_match; uniform_rows.
  - by do 2 apply orElse_nonempty.
  - destruct (getAccountHint_nonempty_or p config) as [H|H]; [|by right].
    left. by do 3 apply orElse_nonempty.
Qed.

Lemma entryRows_uniform (entry : Entry.ProviderResult) :
  ∃ a pl, uniformRows (Entry.provider entry) a pl (entryRows entry) ∧
          pl ≠ [] ∧ (a ≠ [] ∨ Entry.provider entry = []).
Proof.
  unfold entryRows. destruct (Entry.kind entry).
  - apply copilotRows_uniform.
  - apply googleRows_uniform.
  - apply codexRows_uniform.
  - eexists _, _. split; [uniform_rows|]. split.
    + by do 2 apply orElse_nonempty.
    + apply getAccountHint_nonempty_or.
  - eexists _, _. split; [uniform_rows|]. split.
    + by do 2 apply orElse_nonempty.
    + apply getAccountHint_nonempty_or.
Qed.

Lemma transitions_uniform (p : JsString) (rows : list QuotaRow) :
  Forall (λ r, provider r = p) rows → transitions rows = 0.
Proof.
  induction 1 as [|r rest Hr Hrest IH]; [done|].
  cbn [transitions]. destruct Hrest as [|r' rest' Hr' _]; [done|].
  rewrite Hr, Hr'. unfold jsEqb. rewrite bool_decide_eq_true_2 by done.
  by rewrite IH.
Qed.

Lemma transitions_app (front back : list QuotaRow) :
  transitions (front ++ back) ≤ transitions front + transitions back + 1.
Proof.
  induction front as [|r front IH]; [simpl; lia|].
  destruct front as [|r' front].
  - simpl. destruct back; [simpl; lia|]. case_match; lia.
  - change (transitions ((r :: r' :: front) ++ back))
      with ((if jsEqb (provider r) (provider r') then 0 else 1)
            + transitions ((r' :: front) ++ back)).
    change (transitions (r :: r' :: front))
      with ((if jsEqb (provider r) (provider r') then 0 else 1)
            + transitions (r' :: front)).
    lia.
Qed.

Lemma aggregateRows_cons (entry : Entry.ProviderResult)
    (rest : list Entry.ProviderResult) :
  aggregateRows (entry :: rest) = entryRows entry ++ aggregateRows rest.
Proof. by rewrite !aggregateRows_concat. Qed.

Lemma aggregateRows_transitions (results : list Entry.ProviderResult) :
  aggregateRows results = [] ∨ transitions (aggregateRows results) < length results.
Proof.
  induction results as [|entry rest IH]; [by left|].
  rewrite aggregateRows_cons.
  destruct (entryRows_uniform entry) as (a & pl & Huni & _).
  assert (Hzero : transitions (entryRows entry) = 0).
  { apply (transitions_uniform (Entry.provider entry)).
    eapply list.Forall_impl; [exact Huni|]. by intros r (? & _). }
  destruct (entryRows entry) as [|r rows] eqn:Hrows.
  - destruct IH as [->|IH]; [by left | right; simpl; lia].
  - right. destruct IH as [->|IH].
    + rewrite app_nil_r, Hzero. simpl. lia.
    + pose proof (transitions_app (r :: rows) (aggregateRows rest)).
      cbn [length]. lia.
Qed.
End EntryFacts.

(** X12. The rows of one provider result all carry the provider's
    identifier, one account and one plan; the plan is never blank, and the
    account is blank only when the provider's identifier is. *)
Theorem entry_rows_share_identity {P : Platform} (entry : Entry.ProviderResult) :
  ∃ accountLabel planLabel,
    Forall (λ r, provider r = Entry.provider entry
                 ∧ account r = accountLabel ∧ plan r = planLabel)
           (entryRows entry) ∧
    planLabel ≠ [] ∧
    (accountLabel ≠ [] ∨ Entry.provider entry = []).
Proof. apply entryRows_uniform. Qed.

(** X13. The rows of the providers follow one another in the order of the
    results, each provider's rows together; so the table never has more
    group separators than there are boundaries between providers. *)
Theorem separators_bounded_by_providers {P : Platform}
    (results : list Entry.ProviderResult) :
  aggregateRows results = concat (map entryRows results) ∧
  transitions (widgetRows results) ≤ length results - 1.
Proof.
  split; [apply aggregateRows_concat|].
  unfold widgetRows.
  destruct (aggregateRows_transitions results) as [->|Hlt]; [simpl; lia|].
  destruct (aggregateRows results); [simpl; lia|]. simpl in *. lia.
Qed.

(** ** Which providers give rows *)

Lemma insertBy_nonempty {A} (cmp : A → A → Z) (x : A) (l : list A) :
  insertBy cmp x l ≠ [].
Proof. destruct l; simpl; [done|]. by case_match. Qed.

Lemma sortBy_nil {A} (cmp : A → A → Z) (l : list A) :
  sortBy cmp l = [] ↔ l = [].
Proof.
  split; [|by intros ->]. destruct l as [|x l]; [done|].
  unfold sortBy. simpl. intros H. by apply insertBy_nonempty in H.
Qed.

Lemma insertBy_perm {A} (cmp : A → A → Z) (x : A) (l : list A) :
  insertBy cmp x l ≡ₚ x :: l.
Proof.
  induction l as [|y l IH]; [done|]. simpl. case_match; [done|].
  rewrite IH. apply perm_swap.
Qed.

Lemma sortBy_perm {A} (cmp : A → A → Z) (l : list A) : sortBy cmp l ≡ₚ l.
Proof.
  induction l as [|x l IH]; [done|]. unfold sortBy in *. simpl.
  by rewrite insertBy_perm, IH.
Qed.

Lemma filter_empty_iff {A} (keep : A → bool) (l : list A) :
  filter (λ x, keep x = true) l = [] ↔ Forall (λ x, keep x = false) l.
Proof.
  induction l as [|x l IH]; [by split|].
  destruct (keep x) eqn:Hx.
  - rewrite filter_cons_True by done. split; [done|].
    intros Hall. inversion Hall; subst. congruence.
  - rewrite filter_cons_False by congruence. rewrite IH. split.
    + by constructor.
    + by inversion 1.
Qed.

Section EmptyFacts.
Context {P : Platform}.

Lemma collectGoogleModelRows_nil (p a pl : JsString)
    (modelsData : option Google.FetchAvailableModelsResponse) :
  collectGoogleModelRows p a pl modelsData = [] ↔
  match modelsData with
  | None => True
  | Some data =>
      match Google.models data with
      | None => True
      | Some models =>
          Forall (λ m, isRelevantModel (recommendedIds data) m = false) models
      end
  end.
Proof.
  unfold collectGoogleModelRows. destruct modelsData as [data|]; [|done].
  destruct (Google.models data) as [models|]; [|done].
  rewrite <- filter_empty_iff, <- (sortBy_nil (λ a b, localeCompare a.1 b.1)).
  split; [apply map_eq_nil | by intros ->].
Qed.
End EmptyFacts.

(** X14. A provider result gives no row at all in two cases only: a
    Copilot answer with an empty [quota_snapshots] object and no SKU, and a
    Google answer that has a [models] object without any relevant model,
    no prompt credits and no soft error.  Error, unsupported and Codex
    results always give rows. *)
Theorem entry_without_rows {P : Platform} (entry : Entry.ProviderResult) :
  entryRows entry = [] ↔
  match Entry.kind entry with
  | KCopilot data =>
      truthy (Copilot.access_type_sku data) = false ∧
      Copilot.quota_snapshots data = Some []
  | KGoogle _ data =>
      Google.availablePromptCredits (Google.loadData data) = None ∧
      truthy (Google.modelsError data) = false ∧
      ∃ modelsData models,
        Google.modelsData data = Some modelsData ∧
        Google.models modelsData = Some models ∧
        Forall (λ m, isRelevantModel (recommendedIds modelsData) m = false) models
  | KCodex _ | KError _ | KUnsupported => False
  end.
Proof.
  unfold entryRows. destruct (Entry.kind entry) as [data|kind data|data| |].
  - unfold copilotRows. rewrite app_nil.
    destruct (truthy (Copilot.access_type_sku data)).
    { split; [by intros [? _] | by intros [? _]]. }
    destruct (Copilot.quota_snapshots data) as [[|[id s] snapshots]|];
      split; try done; by intros [_ ?].
  - unfold googleRows. rewrite !app_nil, collectGoogleModelRows_nil.
    destruct (Google.availablePromptCredits (Google.loadData data)) as [credits|].
    { split; [by intros [? _] | by intros [? _]]. }
    destruct (truthy (Google.modelsError data)).
    { split; [by intros (_ & _ & ? & _) | by intros (_ & ? & _)]. }
    rewrite bool_decide_eq_true_2 by done. cbn [andb negb].
    destruct (Google.modelsData data) as [modelsData|]; cbn [mbind option_bind].
    + destruct (Google.models modelsData) as [models|] eqn:Hmodels.
      * rewrite bool_decide_eq_true_2 by (by eexists). cbn [negb].
        split.
        -- intros (_ & Hall & _). split_and!; try done. by exists modelsData, models.
        -- intros (_ & _ & md & ms & Hmd & Hms & Hall).
           injection Hmd as <-. rewrite Hmodels in Hms. injection Hms as <-.
           done.
      * rewrite bool_decide_eq_false_2 by (by intros [? ?]). cbn [negb].
        split; [by intros (_ & _ & _ & ?)|].
        intros (_ & _ & md & ms & Hmd & Hms & _).
        injection Hmd as <-. congruence.
    + rewrite bool_decide_eq_false_2 by (by intros [? ?]). cbn [negb].
      split; [by intros (_ & _ & _ & ?)|].
      by intros (_ & _ & md & ms & Hmd & _).
  - unfold codexRows. done.
  - done.
  - done.
Qed.

Lemma recommendedIds_spec (data : Google.FetchAvailableModelsResponse)
    (modelId : JsString) :
  modelId ∈ recommendedIds data ↔
  ∃ first rest groups group ids,
    Google.agentModelSorts data = Some (first :: rest) ∧
    Google.groups first = Some groups ∧
    group ∈ groups ∧
    Google.modelIds group = Some ids ∧
    modelId ∈ ids.
Proof.
  unfold recommendedIds.
  destruct (Google.agentModelSorts data) as [[|first rest]|].
  - split; [by intros ?%elem_of_nil | by intros (? & ? & ? & ? & ? & ? & _)].
  - destruct (Google.groups first) as [groups|] eqn:Hgroups.
    + rewrite list_elem_of_In, in_flat_map. split.
      * intros (group & Hgroup & Hid).
        destruct (Google.modelIds group) as [ids|] eqn:Hids; [|done].
        exists first, rest, groups, group, ids.
        cbn [default from_option id] in Hid.
        apply list_elem_of_In in Hgroup, Hid. done.
      * intros (? & ? & ? & group & ids & [= <- <-] & Hsame & Hgroup & Hids & Hid).
        rewrite Hgroups in Hsame. injection Hsame as <-.
        exists group. rewrite Hids.
        apply list_elem_of_In in Hgroup, Hid. done.
    + split; [by intros ?%elem_of_nil|].
      intros (? & ? & ? & ? & ? & [= <- <-] & Hsame & _). congruence.
  - split; [by intros ?%elem_of_nil | by intros (? & ? & ? & ? & ? & ? & _)].
Qed.

Lemma below_one_spec (fraction : JsNum) :
  jsLt fraction (ofZ 1) = true ↔
  fraction = JInf false ∨ ∃ q, fraction = JFin q ∧ (q < 1)%Q.
Proof.
  destruct fraction as [|[|]|q]; cbn [jsLt ofZ negb].
  - split; [done|]. by intros [?|(? & ? & _)].
  - split; [done|]. by intros [?|(? & ? & _)].
  - split; [by left | done].
  - change (inject_Z 1) with 1%Q. rewrite negb_true_iff. split.
    + intros Hle. right. exists q. split; [done|].
      apply Qnot_le_lt. intros H. apply Qle_bool_iff in H. congruence.
    + intros [?|(q' & [= <-] & Hlt)]; [done|].
      destruct (Qle_bool 1 q) eqn:Hle; [|done].
      apply Qle_bool_iff in Hle. by apply Qlt_not_le in Hlt.
Qed.

(** The filter of the code keeps the models the specification calls
    relevant, and no others. *)
Lemma isRelevantModel_spec (data : Google.FetchAvailableModelsResponse)
    (entry : JsString * Google.ModelInfo) :
  isRelevantModel (recommendedIds data) entry = true ↔ relevantModel data entry.
Proof.
  unfold isRelevantModel, relevantModel.
  destruct (Google.quotaInfo entry.2) as [quota|]; [|by split; [|intros (? & ? & _)]].
  rewrite orb_true_iff, bool_decide_eq_true, recommendedIds_spec. split.
  - intros [Hrec|Hlow]; exists quota; (split; [done|]); [by left|right].
    destruct (Google.remainingFraction quota) as [fraction|]; [|done].
    exists fraction. split; [done|]. by apply below_one_spec.
  - intros (? & [= <-] & [Hrec|(fraction & Hfraction & Hlow)]); [by left|right].
    rewrite Hfraction. by apply below_one_spec.
Qed.

(** X15. The Tiered-Model rows are the relevant models, each once: the
    metrics of the rows are a rearrangement of the identifiers of the
    listed models that carry quota information and either are named in a
    group of the first model sort or have a remaining fraction, a number,
    that compares below 1 (a fraction that is absent, not a number or
    positive infinity does not).  This holds whichever procedure decides
    relevance. *)
Theorem google_rows_are_relevant_models {P : Platform}
    (providerId accountLabel planLabel : JsString)
    (data : Google.FetchAvailableModelsResponse)
    (decideRelevant : ∀ entry, Decision (relevantModel data entry)) :
  map metric (collectGoogleModelRows providerId accountLabel planLabel (Some data))
  ≡ₚ map fst (filter (relevantModel data) (default [] (Google.models data))).
Proof.
  unfold collectGoogleModelRows.
  destruct (Google.models data) as [models|]; [|done].
  cbn [default from_option id]. rewrite map_map. cbn [metric].
  rewrite <- (list_filter_iff _ _ _ (isRelevantModel_spec data)).
  apply (fmap_Permutation fst), sortBy_perm.
Qed.

Lemma google_rows_are_relevant_models_witness :
  ∃ decideRelevant : ∀ entry, Decision (relevantModel mixedModels entry),
    map fst (filter (relevantModel mixedModels)
                    (default [] (Google.models mixedModels)))
    = [lit "gemini-pro"; lit "gemini-flash"] ∧
    map metric (collectGoogleModelRows (P := codeUnitPlatform)
                  (lit "google-gemini-cli") (lit "someone@example.com")
                  (lit "Standard") (Some mixedModels))
    ≡ₚ [lit "gemini-pro"; lit "gemini-flash"].
Proof.
  assert (decideRelevant : ∀ entry, Decision (relevantModel mixedModels entry)).
  { intros entry.
    destruct (isRelevantModel (recommendedIds mixedModels) entry) eqn:Hkeep.
    - left. by apply isRelevantModel_spec.
    - right. intros Hrelevant. apply isRelevantModel_spec in Hrelevant.
      congruence. }
  exists decideRelevant.
  assert (Hkept :
    map fst (filter (relevantModel mixedModels)
                    (default [] (Google.models mixedModels)))
    = [lit "gemini-pro"; lit "gemini-flash"]).
  { rewrite <- (list_filter_iff _ _ _ (isRelevantModel_spec mixedModels)).
    reflexivity. }
  split; [exact Hkept|]. rewrite <- Hkept.
  apply (google_rows_are_relevant_models (P := codeUnitPlatform)).
Defined.

Lemma insertBy_sorted {A} (cmp : A → A → Z) (x : A) (l : list A) :
  (∀ a b, (cmp a b ≤ 0)%Z ∨ (cmp b a ≤ 0)%Z) →
  (∀ a b c, (cmp a b ≤ 0)%Z → (cmp b c ≤ 0)%Z → (cmp a c ≤ 0)%Z) →
  StronglySorted (λ a b, (cmp a b ≤ 0)%Z) l →
  StronglySorted (λ a b, (cmp a b ≤ 0)%Z) (insertBy cmp x l).
Proof.
  intros Htotal Htrans. induction 1 as [|y l Hl IH Hy]; simpl.
  - by repeat constructor.
  - destruct (Z.leb_spec (cmp x y) 0) as [Hxy|Hyx].
    + constructor; [by constructor|]. constructor; [done|].
      eapply list.Forall_impl; [exact Hy|]. intros z Hz. by eapply Htrans.
    + constructor; [done|].
      assert (Hperm : insertBy cmp x l ≡ₚ x :: l) by apply insertBy_perm.
      rewrite Hperm. constructor; [|done].
      destruct (Htotal x y); [lia | done].
Qed.

Lemma sortBy_sorted {A} (cmp : A → A → Z) (l : list A) :
  (∀ a b, (cmp a b ≤ 0)%Z ∨ (cmp b a ≤ 0)%Z) →
  (∀ a b c, (cmp a b ≤ 0)%Z → (cmp b c ≤ 0)%Z → (cmp a c ≤ 0)%Z) →
  StronglySorted (λ a b, (cmp a b ≤ 0)%Z) (sortBy cmp l).
Proof.
  intros Htotal Htrans. induction l as [|x l IH]; [constructor|].
  unfold sortBy in *. simpl. by apply insertBy_sorted.
Qed.

Lemma compareUnits_total (a b : JsString) :
  (compareUnits a b ≤ 0)%Z ∨ (compareUnits b a ≤ 0)%Z.
Proof.
  revert b. induction a as [|x a IH]; intros [|y b]; simpl; try lia.
  destruct (N.ltb_spec x y), (N.ltb_spec y x); try lia. apply IH.
Qed.

Lemma compareUnits_trans (a b c : JsString) :
  (compareUnits a b ≤ 0)%Z → (compareUnits b c ≤ 0)%Z →
  (compareUnits a c ≤ 0)%Z.
Proof.
  revert b c. induction a as [|x a IH]; intros [|y b] [|z c]; simpl; try lia.
  destruct (N.ltb_spec x y), (N.ltb_spec y x), (N.ltb_spec y z),
    (N.ltb_spec z y), (N.ltb_spec x z), (N.ltb_spec z x); try lia.
  apply IH.
Qed.

(** X16. When the collation is a total preorder, the Tiered-Model rows
    come out sorted by metric: no row is followed, anywhere below it, by a
    row whose metric collates strictly before its own. *)
Theorem google_rows_sorted {P : Platform}
    (providerId accountLabel planLabel : JsString)
    (modelsData : option Google.FetchAvailableModelsResponse) :
  (∀ a b, (localeCompare a b ≤ 0)%Z ∨ (localeCompare b a ≤ 0)%Z) →
  (∀ a b c, (localeCompare a b ≤ 0)%Z → (localeCompare b c ≤ 0)%Z →
            (localeCompare a c ≤ 0)%Z) →
  StronglySorted (λ r1 r2, (localeCompare (metric r1) (metric r2) ≤ 0)%Z)
    (collectGoogleModelRows providerId accountLabel planLabel modelsData).
Proof.
  intros Htotal Htrans. unfold collectGoogleModelRows.
  destruct modelsData as [data|]; [|constructor].
  destruct (Google.models data) as [models|]; [|constructor].
  pose proof (sortBy_sorted (λ a b : JsString * Google.ModelInfo,
                               localeCompare a.1 b.1)
                (filter (λ e, isRelevantModel (recommendedIds data) e = true) models)
                ltac:(intros; apply Htotal)
                ltac:(intros a b c; apply Htrans)) as Hsorted.
  induction Hsorted as [|m l Hl IH Hm]; [constructor|].
  cbn [map]. constructor; [done|].
  apply Forall_map. eapply list.Forall_impl; [exact Hm|]. by intros z Hz.
Qed.

Lemma google_rows_sorted_witness :
  (∀ a b, (localeCompare (Platform := codeUnitPlatform) a b ≤ 0)%Z
          ∨ (localeCompare (Platform := codeUnitPlatform) b a ≤ 0)%Z) ∧
  (∀ a b c, (localeCompare (Platform := codeUnitPlatform) a b ≤ 0)%Z →
            (localeCompare (Platform := codeUnitPlatform) b c ≤ 0)%Z →
            (localeCompare (Platform := codeUnitPlatform) a c ≤ 0)%Z) ∧
  map fst (default [] (Google.models twoModels))
  = [lit "gemini-pro"; lit "gemini-flash"; lit "gemini-nano"] ∧
  map metric
    (collectGoogleModelRows (P := codeUnitPlatform) (lit "google-gemini-cli")
       (lit "someone@example.com") (lit "Standard") (Some twoModels))
  = [lit "gemini-flash"; lit "gemini-pro"] ∧
  (localeCompare (Platform := codeUnitPlatform)
     (lit "gemini-pro") (lit "gemini-flash") > 0)%Z ∧
  StronglySorted
    (λ r1 r2, (localeCompare (Platform := codeUnitPlatform) (metric r1) (metric r2)
               ≤ 0)%Z)
    (collectGoogleModelRows (P := codeUnitPlatform) (lit "google-gemini-cli")
       (lit "someone@example.com") (lit "Standard") (Some twoModels)).
Proof.
  split; [exact compareUnits_total|]. split; [exact compareUnits_trans|].
  split; [reflexivity|]. split; [reflexivity|]. split; [reflexivity|].
  exact (google_rows_sorted (P := codeUnitPlatform) _ _ _ (Some twoModels)
           compareUnits_total compareUnits_trans).
Defined.

(** ** Adapters, again *)

(** X17. Without its token a provider fails before any request: whatever
    the network would answer and whatever else is stored, Copilot without a
    refresh token gives one row of metric ["error"] that names the missing
    refresh token, and each of the two Google providers and Codex without
    an access token gives one row of metric ["error"] that names the
    missing access token.  The two conditions are independent: the other
    token may well be there. *)
Theorem missing_token_is_error_row {P : Platform} (net : Network)
    (copilotConfig otherConfig : Auth.AuthProviderConfig) :
  truthy (Auth.refresh copilotConfig) = false →
  truthy (Auth.access otherConfig) = false →
  map (λ r, (metric r, value r))
      (entryRows (fetchProvider net (lit "github-copilot")
                    (ARecord copilotConfig)))
  = [(lit "error", lit "Failed to fetch quota: missing refresh token")] ∧
  ∀ providerId,
    providerId ∈ [lit "google-antigravity"; lit "google-gemini-cli";
                  lit "openai-codex"] →
    map (λ r, (metric r, value r))
        (entryRows (fetchProvider net providerId (ARecord otherConfig)))
    = [(lit "error", lit "Failed to fetch quota: missing access token")].
Proof.
  intros Hrefresh Haccess. split.
  - unfold fetchProvider, jsEqb. cbn [normalizeProviderConfig].
    rewrite bool_decide_eq_true_2 by reflexivity.
    unfold fetchCopilotQuota. rewrite Hrefresh. done.
  - intros providerId Hin.
    repeat (apply elem_of_cons in Hin as [->|Hin]); [| | |by apply elem_of_nil in Hin];
      unfold fetchProvider; cbn [normalizeProviderConfig];
      unfold jsEqb;
      repeat (first [ rewrite bool_decide_eq_true_2 by reflexivity
                    | rewrite bool_decide_eq_false_2 by discriminate ]);
      unfold fetchGoogleQuota, fetchOpenAICodexQuota; rewrite Haccess; done.
Qed.

Lemma missing_token_is_error_row_witness :
  truthy (Auth.refresh tokenOnlyConfig) = false ∧
  truthy (Auth.access tokenOnlyConfig) = true ∧
  truthy (Auth.access refreshOnlyConfig) = false ∧
  truthy (Auth.refresh refreshOnlyConfig) = true ∧
  map (λ r, (metric r, value r))
      (entryRows (P := plainPlatform)
         (fetchProvider (P := plainPlatform) failingModelsNetwork
            (lit "github-copilot") (ARecord tokenOnlyConfig)))
  = [(lit "error", lit "Failed to fetch quota: missing refresh token")] ∧
  map (λ r, (metric r, value r))
      (entryRows (P := plainPlatform)
         (fetchProvider (P := plainPlatform) failingModelsNetwork
            (lit "openai-codex") (ARecord refreshOnlyConfig)))
  = [(lit "error", lit "Failed to fetch quota: missing access token")].
Proof.
  assert (H1 : truthy (Auth.refresh tokenOnlyConfig) = false) by reflexivity.
  assert (H2 : truthy (Auth.access refreshOnlyConfig) = false) by reflexivity.
  split; [exact H1|]. split; [reflexivity|].
  split; [exact H2|]. split; [reflexivity|].
  destruct (missing_token_is_error_row (P := plainPlatform)
              failingModelsNetwork tokenOnlyConfig refreshOnlyConfig H1 H2)
    as [Hcopilot Hothers].
  split; [exact Hcopilot|].
  apply Hothers. by apply (bool_decide_unpack _).
Defined.

(** X18. A provider that is none of the four known ones is answered
    without any request: one row of metric ["quota"] that reads
    ["Unavailable for this provider"], under the account hint and the plan
    of the stored credentials.  An entry of [auth.json] that is not a
    record gives one error row under the provider's own name and the plan
    ["unknown"]. *)
Theorem unknown_provider_rows {P : Platform} (net : Network)
    (providerId : JsString) (config : Auth.AuthProviderConfig) :
  providerId ∉ [lit "github-copilot"; lit "google-antigravity";
                lit "google-gemini-cli"; lit "openai-codex"] →
  entryRows (fetchProvider net providerId (ARecord config))
  = [plainRow providerId (getAccountHint providerId config)
       (orElse (Auth.plan config)
          (orElse (Auth.subscriptionPlan config) (lit "unknown")))
       (lit "quota") (lit "Unavailable for this provider") (lit "-")] ∧
  entryRows (fetchProvider net providerId NotARecord)
  = [plainRow providerId providerId (lit "unknown") (lit "error")
       (lit "Failed to fetch quota: Invalid provider config in auth.json")
       (lit "-")].
Proof.
  intros Hnot. split; [|done].
  unfold fetchProvider. cbn [normalizeProviderConfig]. unfold jsEqb.
  rewrite !bool_decide_eq_false_2.
  all: try done.
  all: intros ->; apply Hnot; repeat constructor.
Qed.

Lemma unknown_provider_rows_witness :
  (lit "anthropic" ∉ [lit "github-copilot"; lit "google-antigravity";
                      lit "google-gemini-cli"; lit "openai-codex"]) ∧
  map value (entryRows (P := plainPlatform)
               (fetchProvider (P := plainPlatform) failingModelsNetwork
                  (lit "anthropic") (ARecord Auth.empty)))
  = [lit "Unavailable for this provider"].
Proof.
  assert (H : lit "anthropic" ∉ [lit "github-copilot"; lit "google-antigravity";
                                 lit "google-gemini-cli"; lit "openai-codex"])
    by (by apply (bool_decide_unpack _)).
  split; [exact H|].
  destruct (unknown_provider_rows (P := plainPlatform) failingModelsNetwork
              (lit "anthropic") Auth.empty H) as [-> _].
  reflexivity.
Defined.

(** X19. When the tier call of a Google provider answers with a status
    outside 200-299 the whole adapter fails, whatever the model endpoint
    would answer: the provider gets one error row that carries the
    status. *)
Theorem google_tier_failure_is_fatal {P : Platform} (net : Network)
    (config : Auth.AuthProviderConfig)
    (loadResponse : Http.Response Google.GoogleLoadCodeAssistResponse) :
  truthy (Auth.access config) = true →
  (∀ headers body, loadCodeAssist net headers body = Ok loadResponse) →
  Http.ok loadResponse = false →
  (∀ ideType,
     fetchGoogleQuota net config ideType
     = Throw (lit "loadCodeAssist failed ("
                ++ showZ (Http.status loadResponse) ++ lit ")")) ∧
  ∀ providerId,
    providerId ∈ [lit "google-antigravity"; lit "google-gemini-cli"] →
    map (λ r, (metric r, value r))
        (entryRows (fetchProvider net providerId (ARecord config)))
    = [(lit "error",
        lit "Failed to fetch quota: " ++ lit "loadCodeAssist failed ("
          ++ showZ (Http.status loadResponse) ++ lit ")")].
Proof.
  intros Haccess Hload Hok.
  assert (Hfetch : ∀ ideType,
            fetchGoogleQuota net config ideType
            = Throw (lit "loadCodeAssist failed ("
                       ++ showZ (Http.status loadResponse) ++ lit ")")).
  { intros ideType. unfold fetchGoogleQuota. rewrite Haccess. cbn [negb].
    rewrite Hload. cbn [mbind exn_bind]. by rewrite Hok. }
  split; [done|]. intros providerId Hin.
  repeat (apply elem_of_cons in Hin as [->|Hin]); [| |by apply elem_of_nil in Hin];
    unfold fetchProvider, jsEqb; cbn [normalizeProviderConfig];
    repeat (first [ rewrite bool_decide_eq_true_2 by reflexivity
                  | rewrite bool_decide_eq_false_2 by discriminate ]);
    rewrite Hfetch; done.
Qed.

Lemma google_tier_failure_is_fatal_witness :
  truthy (Auth.access geminiConfig) = true ∧
  Http.ok (respond 403 (Ok tierAnswer)) = false ∧
  fetchGoogleQuota deniedNetwork geminiConfig Google.IDE_UNSPECIFIED
  = Throw (lit "loadCodeAssist failed (403)").
Proof.
  split; [reflexivity|]. split; [reflexivity|].
  exact (proj1 (google_tier_failure_is_fatal (P := plainPlatform)
                  deniedNetwork geminiConfig (respond 403 (Ok tierAnswer))
                  eq_refl (λ _ _, eq_refl) eq_refl) Google.IDE_UNSPECIFIED).
Defined.

(** X20. When no project is known, neither in the stored credentials nor
    in the tier answer, the model call is not made: the adapter returns the
    tier data alone, without soft error, and the provider gets exactly one
    row, its prompt credits if reported and ["No quota data"] otherwise. *)
Theorem google_without_project {P : Platform} (net : Network)
    (providerId : JsString) (config : Auth.AuthProviderConfig)
    (ideType : Google.IdeType)
    (loadResponse : Http.Response Google.GoogleLoadCodeAssistResponse)
    (loadData : Google.GoogleLoadCodeAssistResponse) :
  truthy (Auth.access config) = true →
  (∀ headers body, loadCodeAssist net headers body = Ok loadResponse) →
  Http.ok loadResponse = true →
  Http.json loadResponse = Ok loadData →
  truthy (resolvedProjectId config loadData) = false →
  ∃ data,
    fetchGoogleQuota net config ideType = Ok data ∧
    Google.loadData data = loadData ∧
    Google.modelsData data = None ∧
    Google.modelsError data = None ∧
    map (λ r, (metric r, value r)) (googleRows providerId config data)
    = match Google.availablePromptCredits loadData with
      | Some credits => [(lit "prompt_credits", numberToString credits)]
      | None => [(lit "quota", lit "No quota data")]
      end.
Proof.
  intros Haccess Hload Hok Hjson Hproject.
  eexists. split.
  { unfold fetchGoogleQuota. rewrite Haccess. cbn [negb].
    rewrite Hload. cbn [mbind exn_bind]. rewrite Hok. cbn [negb].
    rewrite Hjson. cbn [mbind exn_bind]. cbv zeta. by rewrite Hproject. }
  cbn [Google.loadData Google.modelsData Google.modelsError].
  split_and!; try done.
  unfold googleRows.
  cbn [Google.loadData Google.modelsData Google.modelsError collectGoogleModelRows].
  by destruct (Google.availablePromptCredits loadData).
Qed.

Lemma google_without_project_witness :
  truthy (resolvedProjectId tokenOnlyConfig tierAnswer) = false ∧
  ∃ data,
    fetchGoogleQuota failingModelsNetwork tokenOnlyConfig Google.ANTIGRAVITY
    = Ok data ∧
    map (λ r, (metric r, value r))
        (googleRows (P := plainPlatform) (lit "google-antigravity")
           tokenOnlyConfig data)
    = [(lit "prompt_credits", lit "500")].
Proof.
  split; [reflexivity|].
  destruct (google_without_project (P := plainPlatform) failingModelsNetwork
              (lit "google-antigravity") tokenOnlyConfig
              Google.ANTIGRAVITY (respond 200 (Ok tierAnswer)) tierAnswer
              eq_refl (λ _ _, eq_refl) eq_refl eq_refl eq_refl)
    as (data & Hfetch & _ & _ & _ & Hrows).
  exists data. split; [exact Hfetch | exact Hrows].
Defined.



(** ** Token claims, again *)

(** X22. The decoder returns claims exactly for a token of three segments
    whose middle segment decodes to JSON, and the claims are what the
    parser gives for it. *)
Theorem decodeJwtPayload_claims {P : Platform} (token : option JsString)
    (claims : Json) :
  decodeJwtPayload token = Ok (Some claims) ↔
  ∃ s, token = Some s ∧
       length (jsSplit 46%N s) = 3 ∧
       jsonParse (decodeSegment (jsSplit 46%N s !!! 1)) = Ok claims.
Proof.
  split.
  - unfold decodeJwtPayload. destruct token as [[|c s]|]; [done| |done].
    cbn [truthy negb]. change (default [] (Some (c :: s))) with (c :: s).
    destruct (Nat.eqb_spec (length (jsSplit 46%N (c :: s))) 3) as [Hparts|];
      [|done].
    cbn [negb]. destruct (jsonParse _) as [parsed|] eqn:Hjson; [|done].
    cbn [mbind exn_bind tryCatch]. intros [= ->]. by exists (c :: s).
  - intros (s & -> & Hparts & Hjson). by apply decodeJwtPayload_parsed.
Qed.

Lemma jsReplaceAll_absent (c d : N) (s : JsString) :
  c ≠ d → c ∉ jsReplaceAll c d s.
Proof.
  intros Hne. induction s as [|x s IH]; [apply not_elem_of_nil|].
  unfold jsReplaceAll in *. cbn [map]. apply not_elem_of_cons. split; [|done].
  destruct (N.eqb_spec x c); congruence.
Qed.

Lemma jsReplaceAll_keeps_absent (c d e : N) (s : JsString) :
  e ≠ d → e ∉ s → e ∉ jsReplaceAll c d s.
Proof.
  intros Hne. induction s as [|x s IH]; [done|].
  intros [Hx Hs]%not_elem_of_cons.
  unfold jsReplaceAll in *. cbn [map]. apply not_elem_of_cons.
  split; [|by apply IH]. destruct (N.eqb_spec x c); congruence.
Qed.

(** X23. What the decoder hands to the base64 decoder is the segment with
    ["-"] turned into ["+"] and ["_"] into ["/"], followed by at most three
    ["="]: its length is a multiple of four and it holds no ["-"] and no
    ["_"]. *)
Theorem padded_segment_shape {P : Platform} (part : JsString) :
  decodeSegment part = base64ToUtf8 (paddedSegment part) ∧
  ∃ pad,
    pad < 4 ∧
    paddedSegment part
    = jsReplaceAll 95%N 47%N (jsReplaceAll 45%N 43%N part) ++ replicate pad 61%N ∧
    length (paddedSegment part) = length part + pad ∧
    length (paddedSegment part) mod 4 = 0 ∧
    (45%N ∉ paddedSegment part) ∧
    (95%N ∉ paddedSegment part).
Proof.
  split; [done|].
  exists ((4 - length part mod 4) mod 4).
  assert (Hlen : length (jsReplaceAll 95%N 47%N (jsReplaceAll 45%N 43%N part))
                 = length part) by (unfold jsReplaceAll; by rewrite !length_map).
  pose proof (Nat.mod_upper_bound (length part) 4 ltac:(done)) as Hm.
  pose proof (Nat.mod_upper_bound (4 - length part mod 4) 4 ltac:(done)) as Hp.
  assert (Hshape : paddedSegment part
            = jsReplaceAll 95%N 47%N (jsReplaceAll 45%N 43%N part)
              ++ replicate ((4 - length part mod 4) mod 4) 61%N).
  { unfold paddedSegment, jsPadEnd. cbv zeta. rewrite Hlen. do 2 f_equal. lia. }
  split_and!; try done.
  - rewrite Hshape, length_app, length_replicate, Hlen. done.
  - rewrite Hshape, length_app, length_replicate, Hlen.
    pose proof (Nat.div_mod_eq (length part) 4) as Hdiv.
    assert (Hmul : ∃ k, length part + (4 - length part mod 4) mod 4 = k * 4).
    { destruct (length part mod 4) as [|[|[|[|?]]]] eqn:Hr; try lia.
      - exists (length part / 4). change ((4 - 0) mod 4) with 0. lia.
      - exists (S (length part / 4)). change ((4 - 1) mod 4) with 3. lia.
      - exists (S (length part / 4)). change ((4 - 2) mod 4) with 2. lia.
      - exists (S (length part / 4)). change ((4 - 3) mod 4) with 1. lia. }
    destruct Hmul as [k ->]. apply Nat.Div0.mod_mul.
  - rewrite Hshape. intros [Hin|Hin]%elem_of_app.
    + revert Hin. apply jsReplaceAll_keeps_absent; [done|].
      by apply jsReplaceAll_absent.
    + by apply elem_of_replicate in Hin as [? _].
  - rewrite Hshape. intros [Hin|Hin]%elem_of_app.
    + revert Hin. by apply jsReplaceAll_absent.
    + by apply elem_of_replicate in Hin as [? _].
Qed.



(** ** Rate windows *)

Lemma clamp_percent (q : Q) :
  ∃ c : Q, jsMax (ofZ 0) (jsMin (ofZ 100) (JFin q)) = JFin c ∧
           (0 <= c)%Q ∧ (c <= 100)%Q.
Proof.
  unfold jsMin, jsMax, ofZ, jsLt.
  change (inject_Z 100) with 100%Q. change (inject_Z 0) with 0%Q.
  destruct (Qle_bool 100 q) eqn:H1; cbn [negb].
  - assert (Qle_bool 100 0 = false) as -> by reflexivity.
    cbn [negb]. exists 100%Q. split; [done|]. lra.
  - apply Qle_bool_false in H1.
    destruct (Qle_bool q 0) eqn:H0; cbn [negb].
    + exists 0%Q. split; [done|]. lra.
    + apply Qle_bool_false in H0. exists q. split; [done|]. lra.
Qed.

(** A header gives a finite number or nothing. *)
Lemma parseHeaderNumber_finite {P : Platform} (header : option JsString) :
  parseHeaderNumber header = None ∨ ∃ q, parseHeaderNumber header = Some (JFin q).
Proof.
  unfold parseHeaderNumber. destruct (truthy header); cbn [negb]; [|by left].
  destruct (toNumber _) as [| |q]; [by left..|]. right. by exists q.
Qed.

(** X25. The remaining share of a rate window read from the response
    headers is never shown outside 0 to 100: a window without a finite
    used-percent header reads ["n/a"], and any other reads the formatted
    value of a number between 0 and 100. *)
Theorem codex_window_within_range {P : Platform} {A : Type}
    (response : Http.Response A) (prefix : JsString) :
  codexWindowFields (Some (parseCodexWindow response prefix))
  = (lit "n/a", lit "unknown")
  ∨ ∃ remaining : Q,
      (0 <= remaining)%Q ∧ (remaining <= 100)%Q ∧
      (codexWindowFields (Some (parseCodexWindow response prefix))).1
      = toFixed (JFin remaining) 1 ++ lit "% rem".
Proof.
  unfold codexWindowFields, parseCodexWindow. cbn [Codex.usedPercent Codex.resetAt].
  destruct (parseHeaderNumber_finite
              (Http.get response (prefix ++ lit "-used-percent")))
    as [->|[q ->]]; [by left|].
  right. cbv zeta. destruct (clamp_percent q) as (c & -> & H0 & H100).
  exists (100 - c)%Q. split; [lra|]. split; [lra|]. done.
Qed.

(** ** The two tools *)

(** X26. The Gemini CLI tool reports a failed model call as a success:
    with the account in [auth.json], a tier call that succeeds and a model
    call that answers outside 200-299, it returns the data, the soft error
    inside, and does not set [isError]. *)
Theorem gemini_tool_soft_failure (stringify : Google.Data → JsString)
    (file : list (JsString * Auth.AuthProviderConfig)) (net : Network)
    (config : Auth.AuthProviderConfig)
    (loadResponse : Http.Response Google.GoogleLoadCodeAssistResponse)
    (loadData : Google.GoogleLoadCodeAssistResponse)
    (modelsResponse : Http.Response Google.FetchAvailableModelsResponse) :
  fieldOf (lit "google-gemini-cli") file = Some config →
  truthy (Auth.access config) = true →
  (∀ headers body, loadCodeAssist net headers body = Ok loadResponse) →
  Http.ok loadResponse = true →
  Http.json loadResponse = Ok loadData →
  truthy (resolvedProjectId config loadData) = true →
  (∀ headers project, fetchAvailableModels net headers project = Ok modelsResponse) →
  Http.ok modelsResponse = false →
  ∃ data,
    getGeminiCliQuota stringify (Ok file) net = ToolOk (stringify data) data ∧
    Google.loadData data = loadData ∧
    Google.modelsError data
    = Some (lit "fetchAvailableModels failed ("
              ++ showZ (Http.status modelsResponse) ++ lit ")").
Proof.
  intros Hfile Haccess Hload Hok1 Hjson Hproject Hmodels Hok2.
  eexists. split.
  { unfold getGeminiCliQuota, runTool. cbn [mbind exn_bind]. rewrite Hfile.
    unfold fetchGoogleQuota. rewrite Haccess. cbn [negb].
    rewrite Hload. cbn [mbind exn_bind]. rewrite Hok1. cbn [negb].
    rewrite Hjson. cbn [mbind exn_bind]. cbv zeta. rewrite Hproject.
    rewrite Hmodels. cbn [mbind exn_bind]. rewrite Hok2. reflexivity. }
  by split.
Qed.

Lemma gemini_tool_soft_failure_witness :
  fieldOf (lit "google-gemini-cli") geminiAuthFile = Some geminiConfig ∧
  ∃ data,
    getGeminiCliQuota (λ _, lit "{}") (Ok geminiAuthFile) failingModelsNetwork
    = ToolOk (lit "{}") data ∧
    Google.modelsError data = Some (lit "fetchAvailableModels failed (500)").
Proof.
  split; [reflexivity|].
  destruct (gemini_tool_soft_failure (λ _, lit "{}") geminiAuthFile
              failingModelsNetwork geminiConfig
              (respond 200 (Ok tierAnswer)) tierAnswer
              (respond 500 (Throw (lit "Unexpected token")))
              eq_refl eq_refl (λ _ _, eq_refl) eq_refl eq_refl eq_refl
              (λ _ _, eq_refl) eq_refl)
    as (data & Htool & _ & Herr).
  exists data. split; [exact Htool | exact Herr].
Defined.

(** X27. Both tools turn a failure into an error result instead of
    throwing: when [auth.json] cannot be loaded the text is ["Error: "]
    and the message, and when the file has no entry for the tool's own
    provider the text names that provider, whatever other providers the
    file lists; in neither case is a request made. *)
Theorem tools_report_errors {P : Platform}
    (stringifyGoogle : Google.Data → JsString)
    (stringifyCodex : Codex.Data → JsString)
    (geminiLess codexLess : list (JsString * Auth.AuthProviderConfig))
    (message : JsString) (net : Network) :
  fieldOf (lit "google-gemini-cli") geminiLess = None →
  fieldOf (lit "openai-codex") codexLess = None →
  getGeminiCliQuota stringifyGoogle (Throw message) net
  = ToolError (lit "Error: " ++ message) ∧
  getOpenAICodexQuota stringifyCodex (Throw message) net
  = ToolError (lit "Error: " ++ message) ∧
  getGeminiCliQuota stringifyGoogle (Ok geminiLess) net
  = ToolError (lit "Error: google-gemini-cli config not found in auth.json") ∧
  getOpenAICodexQuota stringifyCodex (Ok codexLess) net
  = ToolError (lit "Error: openai-codex config not found in auth.json").
Proof.
  intros Hgemini Hcodex.
  unfold getGeminiCliQuota, getOpenAICodexQuota, runTool.
  cbn [mbind exn_bind]. by rewrite Hgemini, Hcodex.
Qed.

Lemma tools_report_errors_witness :
  fieldOf (lit "google-gemini-cli") codexAuthFile = None ∧
  fieldOf (lit "openai-codex") codexAuthFile = Some codexConfig ∧
  fieldOf (lit "openai-codex") geminiAuthFile = None ∧
  fieldOf (lit "google-gemini-cli") geminiAuthFile = Some geminiConfig ∧
  getGeminiCliQuota (λ _, lit "{}") (Ok codexAuthFile) failingModelsNetwork
  = ToolError (lit "Error: google-gemini-cli config not found in auth.json") ∧
  getOpenAICodexQuota (P := plainPlatform) (λ _, lit "{}") (Ok geminiAuthFile)
                      failingModelsNetwork
  = ToolError (lit "Error: openai-codex config not found in auth.json").
Proof.
  split; [reflexivity|]. split; [reflexivity|].
  split; [reflexivity|]. split; [reflexivity|].
  exact (proj2 (proj2
    (tools_report_errors (P := plainPlatform) (λ _, lit "{}") (λ _, lit "{}")
       codexAuthFile geminiAuthFile (lit "boom") failingModelsNetwork
       eq_refl eq_refl))).
Defined.

(** ** The footer and the command *)

(** X28. The footer extension sets a status unless there is nothing to
    show: no status exactly when the project root and the host name are
    both absent or empty and the mount mode is not ["ro"]. *)
Theorem status_set_unless_empty (theme : Theme)
    (root hostname mode : option JsString) :
  updateStatus theme root hostname mode = None ↔
  truthy root = false ∧ truthy hostname = false ∧ mode ≠ Some (lit "ro").
Proof.
  unfold updateStatus, statusText.
  destruct root as [[|c r]|], hostname as [[|d h]|]; cbn [truthy default app];
    try (split; [done | by intros (? & ? & ?)]);
    (case_bool_decide as Hmode; cbn;
     [split; [done | by intros (_ & _ & ?)] | split; [done | by intros _]]).
Qed.

(** X29. The command shows the table whenever [auth.json] lists at least
    one provider, whatever the network answers: the widget has at least
    one row, and no more provider changes than boundaries between the
    listed providers.  With no provider it only warns, and a failure of
    [loadAuth] is reported as an error notification. *)
Theorem command_outcome {T : Tui} {P : Platform} (net : Network)
    (providers : list (JsString * RawConfig)) (message : JsString) :
  quotaHandler (Throw message) net
  = Notified (lit "Error fetching quotas: " ++ message) (lit "error") ∧
  match providers with
  | [] =>
      quotaHandler (Ok providers) net
      = Notified (lit "No logged-in providers found") (lit "warning")
  | _ :: _ =>
      ∃ rows,
        quotaHandler (Ok providers) net = Widget rows ∧
        rows ≠ [] ∧
        transitions rows ≤ length providers - 1
  end.
Proof.
  split; [done|]. destruct providers as [|p rest]; [done|].
  eexists. split; [done|]. split.
  - apply widgetRows_nonempty.
  - pose proof (aggregateRows_transitions
      (map (λ '(provider, raw), fetchProvider net provider raw) (p :: rest)))
      as Hbound.
    unfold widgetRows. rewrite length_map in Hbound.
    destruct Hbound as [->|Hlt]; [simpl; lia|].
    destruct (aggregateRows _); [simpl; lia|]. simpl in *. lia.
Qed.
